(** * TeamsMicroservice: message cards and the webhook sender

    A shallow embedding of package [messageCard] (message_card.go and the
    sender file) together with the parts of the Go standard library the
    package calls: [unicode/utf8], [unicode], [strings], [encoding/json],
    [bytes], [regexp], [net/url], [net/http], [context] and [fmt].  The
    library functions follow the sources of Go 1.20, the release current
    when the package was written (June 2023).

    Go strings are byte sequences: they are modelled by [string], whose
    characters are the 256 byte values.  A Go [error] is [option error]
    with [None] for [nil].  An [int] is a [Z]; no integer of the package
    comes near the bounds of its type. *)

From Stdlib Require Import ZArith NArith Ascii String List Bool Lia.
From stdpp Require Import base option gmap strings.

Set Default Proof Using "Type".
Local Open Scope Z_scope.

(* ===================================================================== *)
(** * Bytes and strings *)
(* ===================================================================== *)

Definition byte_val (c : ascii) : Z := Z.of_N (N_of_ascii c).
Definition byte_of (z : Z) : ascii := ascii_of_N (Z.to_N z).

(** Characters that cannot be written inside a literal. *)
Definition ch_quote : ascii := byte_of 34.
Definition ch_backslash : ascii := byte_of 92.
Definition ch_nl : ascii := byte_of 10.

Definition str1 (c : ascii) : string := String c EmptyString.

(** [s[i]] (0 outside the string; every use is guarded by a length test). *)
Definition byte_at (s : string) (i : nat) : Z :=
  match String.get i s with
  | Some c => byte_val c
  | None => 0%Z
  end.

(** [s[i:]] and [s[:i]]. *)
Fixpoint slice_from (i : nat) (s : string) : string :=
  match i, s with
  | O, _ => s
  | S i', String _ t => slice_from i' t
  | S _, EmptyString => EmptyString
  end.

Fixpoint slice_to (i : nat) (s : string) : string :=
  match i, s with
  | O, _ => EmptyString
  | S i', String c t => String c (slice_to i' t)
  | S _, EmptyString => EmptyString
  end.

Definition slice (i j : nat) (s : string) : string :=
  slice_to (j - i)%nat (slice_from i s).

Fixpoint strings_HasPrefix (s p : string) : bool :=
  match p, s with
  | EmptyString, _ => true
  | String c p', String d s' => bool_decide (c = d) && strings_HasPrefix s' p'
  | String _ _, EmptyString => false
  end.

(** [strings.Index(s, sep)]: offset of the first occurrence. *)
Fixpoint strings_Index (s sep : string) : option nat :=
  if strings_HasPrefix s sep then Some O
  else match s with
       | EmptyString => None
       | String _ t => S <$> strings_Index t sep
       end.

(** [strings.LastIndex(s, sep)]: offset of the last occurrence. *)
Fixpoint strings_LastIndex (s sep : string) : option nat :=
  match s with
  | EmptyString => if strings_HasPrefix s sep then Some O else None
  | String _ t =>
      match strings_LastIndex t sep with
      | Some i => Some (S i)
      | None => if strings_HasPrefix s sep then Some O else None
      end
  end.

Definition strings_Contains (s sub : string) : bool :=
  bool_decide (is_Some (strings_Index s sub)).

(** [strings.Cut(s, sep)]: before, after, found. *)
Definition strings_Cut (s sep : string) : string * string * bool :=
  match strings_Index s sep with
  | Some i => (slice_to i s, slice_from (i + String.length sep)%nat s, true)
  | None => (s, EmptyString, false)
  end.

(** [strings.Count(s, sep)] for a separator of one byte. *)
Fixpoint strings_Count1 (s : string) (c : ascii) : nat :=
  match s with
  | EmptyString => O
  | String d t => ((if bool_decide (c = d) then 1 else 0) + strings_Count1 t c)%nat
  end.

Fixpoint string_forallb (f : ascii -> bool) (s : string) : bool :=
  match s with
  | EmptyString => true
  | String c t => f c && string_forallb f t
  end.

Definition to_lower_byte (c : ascii) : ascii :=
  let b := byte_val c in
  if ((65 <=? b) && (b <=? 90))%Z then byte_of (b + 32) else c.

(** [strings.ToLower] on the ASCII letters (the only ones a URL scheme has). *)
Fixpoint strings_ToLower_ascii (s : string) : string :=
  match s with
  | EmptyString => EmptyString
  | String c t => String (to_lower_byte c) (strings_ToLower_ascii t)
  end.

(* ===================================================================== *)
(** * unicode/utf8 *)
(* ===================================================================== *)

Definition utf8_RuneError : Z := 0xFFFD.
Definition utf8_RuneSelf : Z := 0x80.
Definition utf8_UTFMax : nat := 4.

Definition utf8_xx : Z := 0xF1.
Definition utf8_as : Z := 0xF0.

(** The table [first]: information about the first byte of an encoding. *)
Definition utf8_first (b : Z) : Z :=
  if (b <? 0x80)%Z then utf8_as
  else if (b <? 0xC2)%Z then utf8_xx
  else if (b <? 0xE0)%Z then 0x02
  else if (b =? 0xE0)%Z then 0x13
  else if (b <? 0xED)%Z then 0x03
  else if (b =? 0xED)%Z then 0x23
  else if (b <? 0xF0)%Z then 0x03
  else if (b =? 0xF0)%Z then 0x34
  else if (b <? 0xF4)%Z then 0x04
  else if (b =? 0xF4)%Z then 0x44
  else utf8_xx.

(** The table [acceptRanges]: bounds of the second byte. *)
Definition utf8_acceptRanges (i : Z) : Z * Z :=
  if (i =? 0)%Z then (0x80, 0xBF)
  else if (i =? 1)%Z then (0xA0, 0xBF)
  else if (i =? 2)%Z then (0x80, 0x9F)
  else if (i =? 3)%Z then (0x90, 0xBF)
  else (0x80, 0x8F).

Definition utf8_locb : Z := 0x80.
Definition utf8_hicb : Z := 0xBF.

(** A 32-bit signed integer, wrapped. *)
Definition int32 (z : Z) : Z := ((z + 2 ^ 31) mod 2 ^ 32 - 2 ^ 31)%Z.

Definition utf8_DecodeRuneInString (s : string) : Z * nat :=
  let n := String.length s in
  if (n <? 1)%nat then (utf8_RuneError, 0%nat)
  else
    let s0 := byte_at s 0%nat in
    let x := utf8_first s0 in
    if (utf8_as <=? x)%Z then
      let mask := Z.shiftr (int32 (Z.shiftl x 31)) 31 in
      (Z.lor (Z.land s0 (Z.lnot mask)) (Z.land utf8_RuneError mask), 1%nat)
    else
      let sz := Z.to_nat (Z.land x 7) in
      let accept := utf8_acceptRanges (Z.shiftr x 4) in
      if (n <? sz)%nat then (utf8_RuneError, 1%nat)
      else
        let s1 := byte_at s 1%nat in
        if ((s1 <? fst accept) || (snd accept <? s1))%Z then (utf8_RuneError, 1%nat)
        else if (sz <=? 2)%nat then
          (Z.lor (Z.shiftl (Z.land s0 0x1F) 6) (Z.land s1 0x3F), 2%nat)
        else
          let s2 := byte_at s 2%nat in
          if ((s2 <? utf8_locb) || (utf8_hicb <? s2))%Z then (utf8_RuneError, 1%nat)
          else if (sz <=? 3)%nat then
            (Z.lor (Z.lor (Z.shiftl (Z.land s0 0x0F) 12) (Z.shiftl (Z.land s1 0x3F) 6))
               (Z.land s2 0x3F), 3%nat)
          else
            let s3 := byte_at s 3%nat in
            if ((s3 <? utf8_locb) || (utf8_hicb <? s3))%Z then (utf8_RuneError, 1%nat)
            else
              (Z.lor (Z.lor (Z.lor (Z.shiftl (Z.land s0 0x07) 18)
                                 (Z.shiftl (Z.land s1 0x3F) 12))
                        (Z.shiftl (Z.land s2 0x3F) 6))
                 (Z.land s3 0x3F), 4%nat).

Definition utf8_RuneStart (b : Z) : bool := negb (Z.land b 0xC0 =? 0x80)%Z.

(** The backwards scan of [DecodeLastRuneInString]: from [start] down to
    [lim], stop at the first byte that can start a rune. *)
Fixpoint utf8_scan_back (s : string) (start : Z) (lim : Z) (fuel : nat) : Z :=
  match fuel with
  | O => start
  | S fuel' =>
      if (start <? lim)%Z then start
      else if utf8_RuneStart (byte_at s (Z.to_nat start)) then start
      else utf8_scan_back s (start - 1) lim fuel'
  end.

Definition utf8_DecodeLastRuneInString (s : string) : Z * nat :=
  let end_ := Z.of_nat (String.length s) in
  if (end_ =? 0)%Z then (utf8_RuneError, 0%nat)
  else
    let start := (end_ - 1)%Z in
    let r := byte_at s (Z.to_nat start) in
    if (r <? utf8_RuneSelf)%Z then (r, 1%nat)
    else
      let lim := (end_ - Z.of_nat utf8_UTFMax)%Z in
      let lim := if (lim <? 0)%Z then 0%Z else lim in
      let start := utf8_scan_back s (start - 1) lim utf8_UTFMax in
      let start := if (start <? 0)%Z then 0%Z else start in
      let '(r, size) :=
        utf8_DecodeRuneInString (slice (Z.to_nat start) (Z.to_nat end_) s) in
      if negb (start + Z.of_nat size =? end_)%Z then (utf8_RuneError, 1%nat)
      else (r, size).

(* ===================================================================== *)
(** * unicode *)
(* ===================================================================== *)

Definition unicode_MaxLatin1 : Z := 0xFF.

(** [unicode.IsSpace]: the Latin-1 switch, then the [White_Space] table. *)
Definition unicode_IsSpace (r : Z) : bool :=
  if (r <=? unicode_MaxLatin1)%Z then
    ((r =? 9) || (r =? 10) || (r =? 11) || (r =? 12) || (r =? 13) || (r =? 32)
     || (r =? 0x85) || (r =? 0xA0))%Z
  else
    ((r =? 0x1680) || ((0x2000 <=? r) && (r <=? 0x200a))
     || ((0x2028 <=? r) && (r <=? 0x2029)) || (r =? 0x202f) || (r =? 0x205f)
     || (r =? 0x3000))%Z.

(* ===================================================================== *)
(** * strings.TrimSpace *)
(* ===================================================================== *)

(** The table [asciiSpace]. *)
Definition strings_asciiSpace (c : Z) : bool :=
  ((c =? 9) || (c =? 10) || (c =? 11) || (c =? 12) || (c =? 13) || (c =? 32))%Z.

(** [indexFunc(s, f, false)] followed by [s[i:]], rune by rune as
    [for i, r := range s] does. *)
Fixpoint strings_TrimLeftFunc_go (fuel : nat) (s : string) (f : Z -> bool) : string :=
  match fuel with
  | O => EmptyString
  | S fuel' =>
      match s with
      | EmptyString => EmptyString
      | String _ _ =>
          let '(r, size) := utf8_DecodeRuneInString s in
          if f r then strings_TrimLeftFunc_go fuel' (slice_from size s) f else s
      end
  end.

Definition strings_TrimLeftFunc (s : string) (f : Z -> bool) : string :=
  strings_TrimLeftFunc_go (S (String.length s)) s f.

(** [lastIndexFunc(s, f, false)]: [None] stands for -1. *)
Fixpoint strings_lastIndexFunc_go (fuel : nat) (s : string) (i : nat) (f : Z -> bool)
  : option nat :=
  match fuel with
  | O => None
  | S fuel' =>
      if (0 <? i)%nat then
        let '(r, size) := utf8_DecodeLastRuneInString (slice_to i s) in
        let i := (i - size)%nat in
        if negb (f r) then Some i else strings_lastIndexFunc_go fuel' s i f
      else None
  end.

Definition strings_TrimRightFunc (s : string) (f : Z -> bool) : string :=
  match strings_lastIndexFunc_go (S (String.length s)) s (String.length s) f with
  | Some i =>
      if (utf8_RuneSelf <=? byte_at s i)%Z then
        let '(_, wid) := utf8_DecodeRuneInString (slice_from i s) in
        slice_to (i + wid)%nat s
      else slice_to (i + 1)%nat s
  | None => slice_to 0%nat s
  end.

Definition strings_TrimFunc (s : string) (f : Z -> bool) : string :=
  strings_TrimRightFunc (strings_TrimLeftFunc s f) f.

(** First loop of [TrimSpace]: [inl start] when the loop ends by itself,
    [inr start] when a non-ASCII byte sends it to the slow path. *)
Fixpoint strings_TrimSpace_start (s : string) (start : nat) : nat + nat :=
  match s with
  | EmptyString => inl start
  | String c t =>
      if (utf8_RuneSelf <=? byte_val c)%Z then inr start
      else if negb (strings_asciiSpace (byte_val c)) then inl start
      else strings_TrimSpace_start t (S start)
  end.

(** Second loop of [TrimSpace], from [stop] down to [start]. *)
Fixpoint strings_TrimSpace_stop (s : string) (start : nat) (stop : nat) : nat + nat :=
  match stop with
  | O => inl stop
  | S stop' =>
      if (start <? stop)%nat then
        let c := byte_at s stop' in
        if (utf8_RuneSelf <=? c)%Z then inr stop
        else if negb (strings_asciiSpace c) then inl stop
        else strings_TrimSpace_stop s start stop'
      else inl stop
  end.

Definition strings_TrimSpace (s : string) : string :=
  match strings_TrimSpace_start s 0%nat with
  | inr start => strings_TrimFunc (slice_from start s) unicode_IsSpace
  | inl start =>
      match strings_TrimSpace_stop s start (String.length s) with
      | inr stop => strings_TrimRightFunc (slice start stop s) unicode_IsSpace
      | inl stop => slice start stop s
      end
  end.

(* ===================================================================== *)
(** * net/url: the URL structure *)
(* ===================================================================== *)

(** [url.Userinfo]. *)
Record url_Userinfo := {
  username : string;
  password : string;
  passwordSet : bool
}.

(** [url.URL], without the two fields [RawPath] and [RawFragment], which
    only record how the path and fragment were escaped. *)
Record url_URL := {
  Scheme : string;
  Opaque : string;
  User : option url_Userinfo;
  Host : string;
  Path : string;
  ForceQuery : bool;
  RawQuery : string;
  Fragment : string
}.

(* ===================================================================== *)
(** * Errors *)
(* ===================================================================== *)

(** An error value is kept as the call that made it: [errors.New] with its
    text, [fmt.Errorf] with its format and operands (so that what an error
    carries and what it wraps can be read off), or an error made inside a
    library package ([url.Parse], the HTTP transport, a reader). *)
Inductive error : Type :=
| errors_New (text : string)
| fmt_Errorf (format : string) (args : list operand)
| lib_error (pkg : string) (text : string)
with operand : Type :=
| arg_string (s : string)
| arg_error (e : error)
| arg_URL_String (u : url_URL).

(** The chain of [errors.Unwrap]: the errors a value wraps through [%w]. *)
Fixpoint error_chain (e : error) : list error :=
  match e with
  | fmt_Errorf _ args =>
      (fix go (args : list operand) : list error :=
         match args with
         | [] => []
         | arg_error e' :: rest => e' :: error_chain e' ++ go rest
         | _ :: rest => go rest
         end) args
  | _ => []
  end.

(** [errors.Is(err, target)]. *)
Definition errors_Is (err target : error) : Prop :=
  err = target \/ In target (error_chain err).

(* ===================================================================== *)
(** * bytes.Buffer and the store of buffers *)
(* ===================================================================== *)

(** A [bytes.Buffer] is the bytes written to it and not read yet. *)
Record bytes_Buffer := { unread : string }.

Definition Buffer_zero : bytes_Buffer := {| unread := EmptyString |}.
Definition Buffer_Reset (b : bytes_Buffer) : bytes_Buffer := Buffer_zero.
Definition Buffer_Write (b : bytes_Buffer) (p : string) : bytes_Buffer * (nat * option error) :=
  ({| unread := unread b +:+ p |}, (String.length p, None)).
(** Reading [n] bytes ([n] at most [Len]) leaves the rest. *)
Definition Buffer_Next (n : nat) (b : bytes_Buffer) : string * bytes_Buffer :=
  (slice_to n (unread b), {| unread := slice_from n (unread b) |}).

(** [*bytes.Buffer]: an address in the store of buffers. *)
Definition loc := positive.
Abbreviation heap := (gmap positive bytes_Buffer).

(** Reading and writing through a pointer.  Go never holds a pointer to a
    freed object, so [deref] outside the store is not reached by the
    program; it is given the zero buffer to keep the functions total. *)
Definition deref (h : heap) (l : loc) : bytes_Buffer := default Buffer_zero (h !! l).
Definition store (h : heap) (l : loc) (b : bytes_Buffer) : heap := <[l := b]> h.
(** [&bytes.Buffer{}]: a new address. *)
Definition alloc (h : heap) (b : bytes_Buffer) : loc * heap :=
  let l := fresh (dom h) in (l, <[l := b]> h).

(** [io.Reader] as the package uses it: [nil] or a [*bytes.Buffer]. *)
Definition io_Reader := option loc.

(* ===================================================================== *)
(** * encoding/json *)
(* ===================================================================== *)

Definition json_hex (n : Z) : ascii :=
  match String.get (Z.to_nat n) "0123456789abcdef" with
  | Some c => c
  | None => "0"%char
  end.

(** The table [htmlSafeSet]: the ASCII bytes copied as they are. *)
Definition json_htmlSafeSet (b : Z) : bool :=
  (0x20 <=? b) && (b <? 0x80)
  && negb ((b =? 34) || (b =? 38) || (b =? 60) || (b =? 62) || (b =? 92)).

(** What [encodeState.string] writes for an ASCII byte outside the safe set
    (Go up to 1.21; from 1.22 on, bytes 8 and 12 are written [\b] and [\f]). *)
Definition json_escape_byte (c : ascii) : string :=
  let b := byte_val c in
  String ch_backslash
    (if (b =? 92) || (b =? 34) then str1 c
     else if b =? 10 then "n"
     else if b =? 13 then "r"
     else if b =? 9 then "t"
     else "u00" +:+ String (json_hex (Z.shiftr b 4)) (str1 (json_hex (Z.land b 0xF)))).

(** The loop of [encodeState.string] with [escapeHTML] set, without the
    surrounding quotes. *)
Fixpoint json_string_body (fuel : nat) (s : string) : string :=
  match fuel with
  | O => EmptyString
  | S fuel' =>
      match s with
      | EmptyString => EmptyString
      | String c t =>
          if byte_val c <? utf8_RuneSelf then
            if json_htmlSafeSet (byte_val c) then String c (json_string_body fuel' t)
            else json_escape_byte c +:+ json_string_body fuel' t
          else
            let '(r, size) := utf8_DecodeRuneInString s in
            if (r =? utf8_RuneError) && (size =? 1)%nat then
              String ch_backslash "ufffd" +:+ json_string_body fuel' (slice_from size s)
            else if (r =? 0x2028) || (r =? 0x2029) then
              String ch_backslash "u202" +:+ str1 (json_hex (Z.land r 0xF))
                +:+ json_string_body fuel' (slice_from size s)
            else slice_to size s +:+ json_string_body fuel' (slice_from size s)
      end
  end.

Definition json_string (s : string) : string :=
  String ch_quote (json_string_body (String.length s) s) +:+ str1 ch_quote.

(** A struct field as the encoder sees it: the name of its [json] tag, the
    [omitempty] option and the value (all encoded fields here are strings). *)
Record json_field := {
  f_name : string;
  f_omitEmpty : bool;
  f_value : string
}.

(** [nameEscHTML]: the quoted name and a colon (no tag name of the package
    has a character that [HTMLEscape] rewrites). *)
Definition json_nameEscHTML (name : string) : string :=
  String ch_quote name +:+ String ch_quote ":".

(** The field loop of [structEncoder.encode]; [next] is the byte written
    before the next field. *)
Fixpoint json_struct_fields (next : ascii) (fs : list json_field) : string * ascii :=
  match fs with
  | [] => (EmptyString, next)
  | f :: rest =>
      if f_omitEmpty f && bool_decide (f_value f = EmptyString) then
        json_struct_fields next rest
      else
        let '(out, next') := json_struct_fields ","%char rest in
        (String next (json_nameEscHTML (f_name f)) +:+ json_string (f_value f) +:+ out,
         next')
  end.

Definition json_struct (fs : list json_field) : string :=
  let '(out, next) := json_struct_fields "{"%char fs in
  if bool_decide (next = "{"%char) then out +:+ "{}" else out +:+ "}".

(* ===================================================================== *)
(** * message_card.go *)
(* ===================================================================== *)

Record MessageCard := {
  Type_ : string;     (* json:"@type" *)
  Context : string;   (* json:"@context" *)
  Title : string;     (* json:"title,omitempty" *)
  Text : string;      (* json:"text,omitempty" *)
  Color : string;     (* json:"color,omitempty" *)
  payload : option loc  (* json:"-" *)
}.

Definition set_payload (card : MessageCard) (p : option loc) : MessageCard :=
  {| Type_ := Type_ card; Context := Context card; Title := Title card;
     Text := Text card; Color := Color card; payload := p |}.

(** The exported fields in declaration order with their [json] tags. *)
Definition MessageCard_json_fields (card : MessageCard) : list json_field :=
  [ {| f_name := "@type"; f_omitEmpty := false; f_value := Type_ card |};
    {| f_name := "@context"; f_omitEmpty := false; f_value := Context card |};
    {| f_name := "title"; f_omitEmpty := true; f_value := Title card |};
    {| f_name := "text"; f_omitEmpty := true; f_value := Text card |};
    {| f_name := "color"; f_omitEmpty := true; f_value := Color card |} ].

(** [json.Marshal(card)]: a struct of strings never fails to encode. *)
Definition json_Marshal (card : MessageCard) : string * option error :=
  (json_struct (MessageCard_json_fields card), None).

(** [Validate]. *)
Definition Validate (card : MessageCard) : option error :=
  if bool_decide (Title card = EmptyString) then
    Some (fmt_Errorf "invalid message card: title required" [])
  else if bool_decide (Text card = EmptyString) then
    Some (fmt_Errorf "invalid message card: text required" [])
  else None.

(** [Prepare]: the receiver is a pointer, so the card comes back with the
    store. *)
Definition Prepare (card : MessageCard) (h : heap) : MessageCard * heap * option error :=
  let '(jsonMessage, err) := json_Marshal card in
  match err with
  | Some e =>
      (card, h, Some (fmt_Errorf "error marshalling MessageCard to JSON: %w" [arg_error e]))
  | None =>
      let '(l, card, h) :=
        match payload card with
        | None =>
            let '(l, h) := alloc h Buffer_zero in (l, set_payload card (Some l), h)
        | Some l => (l, card, store h l (Buffer_Reset (deref h l)))
        end in
      let '(b, (_, err)) := Buffer_Write (deref h l) jsonMessage in
      let h := store h l b in
      match err with
      | Some e =>
          (card, h, Some (fmt_Errorf "errorr writing JSON for MessageCard: %w" [arg_error e]))
      | None => (card, h, None)
      end
  end.

(** [Payload]. *)
Definition Payload (card : MessageCard) : io_Reader := payload card.

(** [CreateMessageCard]. *)
Definition CreateMessageCard : MessageCard :=
  {| Type_ := "MessageCard";
     Context := "https://schema.org/extensions";
     Title := EmptyString; Text := EmptyString; Color := EmptyString;
     payload := None |}.

(* ===================================================================== *)
(** * regexp *)
(* ===================================================================== *)

(** Regular expressions over bytes, for the part of the RE2 syntax that the
    package's pattern is written in: literals, escaped punctuation, [.],
    groups, [|], the repetitions [*], [+], [?] and the anchor [^]. *)
Inductive regex : Type :=
| re_none                       (* no match *)
| re_eps                        (* the empty string *)
| re_begin                      (* ^ : at the beginning of the text *)
| re_lit (c : ascii)
| re_dot                        (* . : any character but a newline *)
| re_cat (r1 r2 : regex)
| re_alt (r1 r2 : regex)
| re_star (r : regex).

Fixpoint re_concat (l : list regex) : regex :=
  match l with
  | [] => re_eps
  | [r] => r
  | r :: rest => re_cat r (re_concat rest)
  end.

Fixpoint re_alternate (l : list regex) : regex :=
  match l with
  | [] => re_none
  | [r] => r
  | r :: rest => re_alt r (re_alternate rest)
  end.

(** One open group of the parser's stack: the alternatives already closed
    by [|] and the items of the concatenation being read, both newest
    first. *)
Record re_frame := {
  fr_alts : list regex;
  fr_seq : list regex
}.

Definition re_frame_empty : re_frame := {| fr_alts := []; fr_seq := [] |}.
Definition re_frame_push (r : regex) (f : re_frame) : re_frame :=
  {| fr_alts := fr_alts f; fr_seq := r :: fr_seq f |}.
Definition re_frame_bar (f : re_frame) : re_frame :=
  {| fr_alts := re_concat (rev (fr_seq f)) :: fr_alts f; fr_seq := [] |}.
Definition re_frame_close (f : re_frame) : regex :=
  re_alternate (rev (re_concat (rev (fr_seq f)) :: fr_alts f)).

Definition re_is_alnum (c : ascii) : bool :=
  let b := byte_val c in
  ((48 <=? b) && (b <=? 57)) || ((65 <=? b) && (b <=? 90)) || ((97 <=? b) && (b <=? 122)).

(** Bytes with a meaning of their own in a pattern. *)
Definition re_is_meta (c : ascii) : bool :=
  bool_decide (c ∈ ["("; ")"; "|"; "^"; "$"; "."; "["; "]"; "*"; "+"; "?"; "{"; "}"]%char)
  || bool_decide (c = ch_backslash).

(** The parser.  [cur] is the innermost open group, [stack] the groups
    around it; [rep] tells whether a repetition operator may follow.
    Syntax outside the supported part is refused. *)
Fixpoint re_parse (s : string) (cur : re_frame) (stack : list re_frame) (rep : bool)
  : regex + error :=
  let bad text := inr (lib_error "regexp" text) in
  let repeat (f : regex -> regex) (t : string) :=
    match rep, fr_seq cur with
    | true, r :: seq =>
        re_parse t {| fr_alts := fr_alts cur; fr_seq := f r :: seq |} stack false
    | _, _ => bad "missing argument to repetition operator"
    end in
  match s with
  | EmptyString =>
      match stack with
      | [] => inl (re_frame_close cur)
      | _ :: _ => bad "missing closing )"
      end
  | String c t =>
      if bool_decide (c = "("%char) then
        match t with
        | String "?" (String ":" t') => re_parse t' re_frame_empty (cur :: stack) false
        | String "?" _ => bad "unsupported group flags"
        | _ => re_parse t re_frame_empty (cur :: stack) false
        end
      else if bool_decide (c = ")"%char) then
        match stack with
        | [] => bad "unexpected )"
        | parent :: stack' =>
            re_parse t (re_frame_push (re_frame_close cur) parent) stack' true
        end
      else if bool_decide (c = "|"%char) then re_parse t (re_frame_bar cur) stack false
      else if bool_decide (c = "^"%char) then re_parse t (re_frame_push re_begin cur) stack true
      else if bool_decide (c = "."%char) then re_parse t (re_frame_push re_dot cur) stack true
      else if bool_decide (c = "*"%char) then repeat re_star t
      else if bool_decide (c = "+"%char) then repeat (fun r => re_cat r (re_star r)) t
      else if bool_decide (c = "?"%char) then repeat (fun r => re_alt r re_eps) t
      else if bool_decide (c = ch_backslash) then
        match t with
        | String d t' =>
            if (byte_val d <? utf8_RuneSelf) && negb (re_is_alnum d)
            then re_parse t' (re_frame_push (re_lit d) cur) stack true
            else bad "unsupported escape sequence"
        | EmptyString => bad "trailing backslash at end of expression"
        end
      else if re_is_meta c || (utf8_RuneSelf <=? byte_val c) then bad "unsupported syntax"
      else re_parse t (re_frame_push (re_lit c) cur) stack true
  end.

Definition regexp_Compile (expr : string) : regex + error :=
  re_parse expr re_frame_empty [] false.

(** Matching by derivatives.  [b] tells whether the position is the
    beginning of the text. *)
Fixpoint re_nullable (b : bool) (r : regex) : bool :=
  match r with
  | re_none => false
  | re_eps => true
  | re_begin => b
  | re_lit _ => false
  | re_dot => false
  | re_cat r1 r2 => re_nullable b r1 && re_nullable b r2
  | re_alt r1 r2 => re_nullable b r1 || re_nullable b r2
  | re_star _ => true
  end.

Fixpoint re_deriv (b : bool) (c : ascii) (r : regex) : regex :=
  match r with
  | re_none | re_eps | re_begin => re_none
  | re_lit d => if bool_decide (c = d) then re_eps else re_none
  | re_dot => if bool_decide (c = ch_nl) then re_none else re_eps
  | re_cat r1 r2 =>
      re_alt (re_cat (re_deriv b c r1) r2)
             (if re_nullable b r1 then re_deriv b c r2 else re_none)
  | re_alt r1 r2 => re_alt (re_deriv b c r1) (re_deriv b c r2)
  | re_star r1 => re_cat (re_deriv b c r1) (re_star r1)
  end.

(** Does [r] match a prefix of [s]?  ([b]: [s] starts the text.) *)
Fixpoint re_match_prefix (b : bool) (r : regex) (s : string) : bool :=
  re_nullable b r
  || match s with
     | EmptyString => false
     | String c t => re_match_prefix false (re_deriv b c r) t
     end.

(** Does [r] match somewhere in [s]? *)
Fixpoint re_match_anywhere (b : bool) (r : regex) (s : string) : bool :=
  re_match_prefix b r s
  || match s with
     | EmptyString => false
     | String _ t => re_match_anywhere false r t
     end.

(** [regexp.MatchString(pattern, s)]. *)
Definition regexp_MatchString (pattern : string) (s : string) : bool * option error :=
  match regexp_Compile pattern with
  | inr e => (false, Some e)
  | inl re => (re_match_anywhere true re s, None)
  end.

(* ===================================================================== *)
(** * net/url: Parse *)
(* ===================================================================== *)

Definition url_error (text : string) : error := lib_error "net/url" text.

Inductive url_encoding :=
| encodePath | encodeHost | encodeZone | encodeUserPassword | encodeFragment.

#[global] Instance url_encoding_eq_dec : EqDecision url_encoding.
Proof. solve_decision. Defined.

Definition url_ishex (c : ascii) : bool :=
  let b := byte_val c in
  ((48 <=? b) && (b <=? 57)) || ((97 <=? b) && (b <=? 102)) || ((65 <=? b) && (b <=? 70)).

Definition url_unhex (c : ascii) : Z :=
  let b := byte_val c in
  if (48 <=? b) && (b <=? 57) then b - 48
  else if (97 <=? b) && (b <=? 102) then b - 97 + 10
  else if (65 <=? b) && (b <=? 70) then b - 65 + 10
  else 0.

(** [shouldEscape(c, encodeHost)], the only mode [unescape] asks about. *)
Definition url_shouldEscape_host (c : ascii) : bool :=
  if re_is_alnum c then false
  else if bool_decide (c ∈ ["!"; "$"; "&"; "'"; "("; ")"; "*"; "+"; ","; ";"; "=";
                             ":"; "["; "]"; "<"; ">"]%char)
          || bool_decide (c = ch_quote) then false
  else if bool_decide (c ∈ ["-"; "_"; "."; "~"]%char) then false
  else true.

(** First pass of [unescape]: are the [%] escapes well formed and, in a
    host, are the bytes allowed? *)
Fixpoint url_unescape_check (mode : url_encoding) (s : string) : option error :=
  match s with
  | EmptyString => None
  | String c t =>
      if bool_decide (c = "%"%char) then
        match t with
        | String a (String b rest) =>
            if negb (url_ishex a) || negb (url_ishex b) then
              Some (url_error ("invalid URL escape " +:+ slice_to 3 s))
            else if bool_decide (mode = encodeHost) && (url_unhex a <? 8)
                    && negb (bool_decide (slice_to 3 s = "%25")) then
              Some (url_error ("invalid URL escape " +:+ slice_to 3 s))
            else if bool_decide (mode = encodeZone)
                    && negb (bool_decide (slice_to 3 s = "%25"))
                    && negb (Z.lor (Z.shiftl (url_unhex a) 4) (url_unhex b) =? 32)
                    && url_shouldEscape_host
                         (byte_of (Z.lor (Z.shiftl (url_unhex a) 4) (url_unhex b))) then
              Some (url_error ("invalid URL escape " +:+ slice_to 3 s))
            else url_unescape_check mode rest
        | _ => Some (url_error ("invalid URL escape " +:+ slice_to 3 s))
        end
      else if bool_decide (c = "+"%char) then url_unescape_check mode t
      else if (bool_decide (mode = encodeHost) || bool_decide (mode = encodeZone))
              && (byte_val c <? 0x80) && url_shouldEscape_host c then
        Some (url_error ("invalid character in host name " +:+ str1 c))
      else url_unescape_check mode t
  end.

(** Second pass of [unescape]: replace the escapes. *)
Fixpoint url_unescape_convert (s : string) : string :=
  match s with
  | EmptyString => EmptyString
  | String c t =>
      if bool_decide (c = "%"%char) then
        match t with
        | String a (String b rest) =>
            String (byte_of (Z.lor (Z.shiftl (url_unhex a) 4) (url_unhex b)))
                   (url_unescape_convert rest)
        | _ => s
        end
      else String c (url_unescape_convert t)
  end.

Definition url_unescape (s : string) (mode : url_encoding) : string + error :=
  match url_unescape_check mode s with
  | Some e => inr e
  | None => inl (url_unescape_convert s)
  end.

Definition url_stringContainsCTLByte (s : string) : bool :=
  negb (string_forallb (fun c => negb ((byte_val c <? 32) || (byte_val c =? 0x7f))) s).

(** [getScheme]: scheme and rest, or an error. *)
Fixpoint url_getScheme_go (rawURL : string) (s : string) (i : nat)
  : string * string * option error :=
  match s with
  | EmptyString => (EmptyString, rawURL, None)
  | String c t =>
      let b := byte_val c in
      if ((97 <=? b) && (b <=? 122)) || ((65 <=? b) && (b <=? 90)) then
        url_getScheme_go rawURL t (S i)
      else if ((48 <=? b) && (b <=? 57)) || bool_decide (c ∈ ["+"; "-"; "."]%char) then
        if (i =? 0)%nat then (EmptyString, rawURL, None)
        else url_getScheme_go rawURL t (S i)
      else if bool_decide (c = ":"%char) then
        if (i =? 0)%nat then
          (EmptyString, EmptyString, Some (url_error "missing protocol scheme"))
        else (slice_to i rawURL, t, None)
      else (EmptyString, rawURL, None)
  end.

Definition url_getScheme (rawURL : string) : string * string * option error :=
  url_getScheme_go rawURL rawURL 0.

Definition url_validOptionalPort (port : string) : bool :=
  match port with
  | EmptyString => true
  | String c t =>
      bool_decide (c = ":"%char)
      && string_forallb (fun d => (48 <=? byte_val d) && (byte_val d <=? 57)) t
  end.

Definition url_validUserinfo (s : string) : bool :=
  string_forallb
    (fun c => re_is_alnum c
              || bool_decide (c ∈ ["-"; "."; "_"; ":"; "~"; "!"; "$"; "&"; "'"; "("; ")";
                                    "*"; "+"; ","; ";"; "="; "%"; "@"]%char)) s.

(** Sequencing of results that may be errors. *)
Definition bind_res {A B : Type} (r : A + error) (k : A -> B + error) : B + error :=
  match r with
  | inl a => k a
  | inr e => inr e
  end.

Notation "x ←r r ; k" := (bind_res r (fun x => k))
  (at level 20, r at level 100, k at level 200, only parsing).

Definition url_parseHost (host : string) : string + error :=
  let plain :=
    h ←r url_unescape host encodeHost; inl h in
  if strings_HasPrefix host "[" then
    match strings_LastIndex host "]" with
    | None => inr (url_error "missing ']' in host")
    | Some i =>
        let colonPort := slice_from (i + 1) host in
        if negb (url_validOptionalPort colonPort) then
          inr (url_error ("invalid port " +:+ colonPort +:+ " after host"))
        else
          match strings_Index (slice_to i host) "%25" with
          | Some zone =>
              host1 ←r url_unescape (slice_to zone host) encodeHost;
              host2 ←r url_unescape (slice zone i host) encodeZone;
              host3 ←r url_unescape (slice_from i host) encodeHost;
              inl (host1 +:+ host2 +:+ host3)
          | None => plain
          end
    end
  else
    match strings_LastIndex host ":" with
    | Some i =>
        let colonPort := slice_from i host in
        if negb (url_validOptionalPort colonPort) then
          inr (url_error ("invalid port " +:+ colonPort +:+ " after host"))
        else plain
    | None => plain
    end.

Definition url_parseAuthority (authority : string)
  : (option url_Userinfo * string) + error :=
  match strings_LastIndex authority "@" with
  | None => host ←r url_parseHost authority; inl (None, host)
  | Some i =>
      host ←r url_parseHost (slice_from (i + 1) authority);
      let userinfo := slice_to i authority in
      if negb (url_validUserinfo userinfo) then inr (url_error "net/url: invalid userinfo")
      else if negb (strings_Contains userinfo ":") then
        userinfo ←r url_unescape userinfo encodeUserPassword;
        inl (Some {| username := userinfo; password := EmptyString;
                     passwordSet := false |}, host)
      else
        let '(username, password, _) := strings_Cut userinfo ":" in
        username ←r url_unescape username encodeUserPassword;
        password ←r url_unescape password encodeUserPassword;
        inl (Some {| username := username; password := password;
                     passwordSet := true |}, host)
  end.

Definition strings_HasSuffix (s suffix : string) : bool :=
  (String.length suffix <=? String.length s)%nat
  && bool_decide (slice_from (String.length s - String.length suffix) s = suffix).

(** [parse(rawURL, viaRequest)]: a URL without [#fragment]. *)
Definition url_parse (rawURL : string) (viaRequest : bool) : url_URL + error :=
  if url_stringContainsCTLByte rawURL then
    inr (url_error "net/url: invalid control character in URL")
  else if bool_decide (rawURL = EmptyString) && viaRequest then inr (url_error "empty url")
  else if bool_decide (rawURL = "*") then
    inl {| Scheme := EmptyString; Opaque := EmptyString; User := None; Host := EmptyString;
           Path := "*"; ForceQuery := false; RawQuery := EmptyString;
           Fragment := EmptyString |}
  else
    let '(scheme, rest, err) := url_getScheme rawURL in
    match err with
    | Some e => inr e
    | None =>
        let scheme := strings_ToLower_ascii scheme in
        let '(rest, forceQuery, rawQuery) :=
          if strings_HasSuffix rest "?" && (strings_Count1 rest "?" =? 1)%nat then
            (slice_to (String.length rest - 1) rest, true, EmptyString)
          else
            let '(before, after, _) := strings_Cut rest "?" in (before, false, after) in
        let mk user host path :=
          {| Scheme := scheme; Opaque := EmptyString; User := user; Host := host;
             Path := path; ForceQuery := forceQuery; RawQuery := rawQuery;
             Fragment := EmptyString |} in
        let continue (_ : unit) :=
          let with_path user host rest :=
            path ←r url_unescape rest encodePath; inl (mk user host path) in
          if (negb (bool_decide (scheme = EmptyString))
              || (negb viaRequest && negb (strings_HasPrefix rest "///")))
             && strings_HasPrefix rest "//" then
            let authority := slice_from 2 rest in
            let '(authority, rest) :=
              match strings_Index authority "/" with
              | Some i => (slice_to i authority, slice_from i authority)
              | None => (authority, EmptyString)
              end in
            uh ←r url_parseAuthority authority;
            with_path (fst uh) (snd uh) rest
          else with_path None EmptyString rest in
        if negb (strings_HasPrefix rest "/") then
          if negb (bool_decide (scheme = EmptyString)) then
            inl {| Scheme := scheme; Opaque := rest; User := None; Host := EmptyString;
                   Path := EmptyString; ForceQuery := forceQuery; RawQuery := rawQuery;
                   Fragment := EmptyString |}
          else if viaRequest then inr (url_error "invalid URI for request")
          else
            let '(segment, _, _) := strings_Cut rest "/" in
            if strings_Contains segment ":" then
              inr (url_error "first path segment in URL cannot contain colon")
            else continue tt
        else continue tt
    end.

Definition url_setFragment (u : url_URL) (f : string) : url_URL + error :=
  frag ←r url_unescape f encodeFragment;
  inl {| Scheme := Scheme u; Opaque := Opaque u; User := User u; Host := Host u;
         Path := Path u; ForceQuery := ForceQuery u; RawQuery := RawQuery u;
         Fragment := frag |}.

(** [url.Parse]. *)
Definition url_Parse (rawURL : string) : url_URL + error :=
  let '(u, frag, _) := strings_Cut rawURL "#" in
  url ←r url_parse u false;
  if bool_decide (frag = EmptyString) then inl url
  else url_setFragment url frag.

(* ===================================================================== *)
(** * context, time, net/http *)
(* ===================================================================== *)

(** [time.Duration]: nanoseconds. *)
Definition time_Nanosecond : Z := 1.
Definition time_Second : Z := 1000000000 * time_Nanosecond.

(** A context is known by how it was built. *)
Inductive context_Context :=
| context_Background
| context_WithTimeout (parent : context_Context) (timeout : Z).

(** The body of a response: what reading it to the end gives, and what
    closing it gives.  Both are decided by the network. *)
Record http_body := {
  body_data : string;
  body_readErr : option string;
  body_closeErr : option string
}.

Definition http_error (text : string) : error := lib_error "net/http" text.

Definition io_ReadAll (b : http_body) : string * option error :=
  (body_data b, http_error <$> body_readErr b).

Definition body_Close (b : http_body) : option error := http_error <$> body_closeErr b.

Record http_Response := {
  Status : string;       (* e.g. "200 OK" *)
  StatusCode : Z;        (* e.g. 200 *)
  Body : http_body
}.

Record http_Request := {
  req_ctx : context_Context;
  Method : string;
  URL : url_URL;
  Header : list (string * string);
  req_Body : io_Reader
}.

Definition http_MethodPost : string := "POST".

(** [removeEmptyPort]. *)
Definition http_hasPort (s : string) : bool :=
  match strings_LastIndex s ":", strings_LastIndex s "]" with
  | Some i, Some j => (j <? i)%nat
  | Some _, None => true
  | None, _ => false
  end.

Definition http_removeEmptyPort (host : string) : string :=
  if http_hasPort host then
    if strings_HasSuffix host ":" then slice_to (String.length host - 1) host else host
  else host.

(** [http.NewRequestWithContext] for a valid method and a context that is
    not nil. *)
Definition http_NewRequestWithContext (ctx : context_Context) (method url : string)
    (body : io_Reader) : http_Request + error :=
  u ←r url_Parse url;
  let u := {| Scheme := Scheme u; Opaque := Opaque u; User := User u;
              Host := http_removeEmptyPort (Host u); Path := Path u;
              ForceQuery := ForceQuery u; RawQuery := RawQuery u;
              Fragment := Fragment u |} in
  inl {| req_ctx := ctx; Method := method; URL := u; Header := []; req_Body := body |}.

Definition Header_Add (req : http_Request) (key value : string) : http_Request :=
  {| req_ctx := req_ctx req; Method := Method req; URL := URL req;
     Header := Header req ++ [(key, value)]; req_Body := req_Body req |}.

(** [*http.Client]: the network behind it.  Given a request and the bytes
    its body can supply, the exchange reads some of them and ends with a
    response or an error (a failed connection, an expired context, ...). *)
Record http_Client := {
  exchange : http_Request -> string -> nat * (http_Response + string)
}.

(** [Client.Do]: the request body is the buffer behind the pointer, so what
    the exchange reads is gone from that buffer. *)
Definition Client_Do (c : http_Client) (req : http_Request) (h : heap)
  : (http_Response + error) * heap :=
  let avail := match req_Body req with
               | Some l => unread (deref h l)
               | None => EmptyString
               end in
  let '(n, outcome) := exchange c req avail in
  let h := match req_Body req with
           | Some l => store h l (snd (Buffer_Next (n `min` String.length avail) (deref h l)))
           | None => h
           end in
  (match outcome with
   | inl resp => inl resp
   | inr text => inr (http_error text)
   end, h).

(* ===================================================================== *)
(** * The sender: constants and pure functions *)
(* ===================================================================== *)

Definition WebhookURLValidPattern : string :=
  "^https:" +:+ String ch_backslash "/" +:+ String ch_backslash "/(?:.*"
  +:+ String ch_backslash ".webhook|outlook)" +:+ String ch_backslash ".office(?:365)?"
  +:+ String ch_backslash ".com".

Definition ExpectedEndpointResponseText : string := "1".

Definition WebhookSendTimeout : Z := 5 * time_Second.

Definition ErrWebHookURLPattern : error :=
  errors_New "the webhook URL does not match the expected pattern".

Definition ErrInvalidResponseText : error :=
  errors_New "message unsuccessful, invalid webhook URL response text".

Record TeamsClient := { httpClient : http_Client }.

(** [CreateTeamsClient]: [&http.Client{}] talks to the network it is
    created on. *)
Definition CreateTeamsClient (network : http_Client) : TeamsClient :=
  {| httpClient := network |}.

Definition HTTPClient (client : TeamsClient) : http_Client := httpClient client.

(** The loop of [ValidateWebhook] over the patterns. *)
Fixpoint ValidateWebhook_patterns (patterns : list string) (webhookURL : string)
    (urlLink : url_URL) : option error :=
  match patterns with
  | [] => Some (fmt_Errorf "%w; got: %q"
                  [arg_error ErrWebHookURLPattern; arg_URL_String urlLink])
  | thisPattern :: rest =>
      let '(match_, err) := regexp_MatchString thisPattern webhookURL in
      match err with
      | Some e => Some e
      | None =>
          if match_ then None else ValidateWebhook_patterns rest webhookURL urlLink
      end
  end.

(** [ValidateWebhook]. *)
Definition ValidateWebhook (client : TeamsClient) (webhookURL : string) : option error :=
  match url_Parse webhookURL with
  | inr err =>
      Some (fmt_Errorf "could not parse webhook URL %q: %w"
              [arg_string webhookURL; arg_error err])
  | inl urlLink =>
      let patterns := [WebhookURLValidPattern] in
      ValidateWebhook_patterns patterns webhookURL urlLink
  end.

(** [prepareRequest]. *)
Definition prepareRequest (ctxt : context_Context) (webhookURL : string)
    (message : io_Reader) : http_Request + error :=
  match http_NewRequestWithContext ctxt http_MethodPost webhookURL message with
  | inr err => inr err
  | inl request => inl (Header_Add request "Content-Type" "application/json;charset=utf-8")
  end.

(** [processResponse]. *)
Definition processResponse (response : http_Response) : string * option error :=
  let '(data, err) := io_ReadAll (Body response) in
  match err with
  | Some e => (EmptyString, Some e)
  | None =>
      let responseString := data in
      if 299 <=? StatusCode response then
        (EmptyString,
         Some (fmt_Errorf "error on code: %v, %q"
                 [arg_string (Status response); arg_string responseString]))
      else if negb (bool_decide
                      (responseString = strings_TrimSpace ExpectedEndpointResponseText)) then
        (EmptyString,
         Some (fmt_Errorf "got %q, expected %q: %w"
                 [arg_string responseString; arg_string ExpectedEndpointResponseText;
                  arg_error ErrInvalidResponseText]))
      else (responseString, None)
  end.

(* ===================================================================== *)
(** * The sender: Send and sendWithContext *)
(* ===================================================================== *)

(** [sendWithContext] is written against two interfaces, [MessageSender]
    (the client) and [teamsMessage] (the message).  A call of one of their
    methods, or of a library function that acts on the outside world, is a
    [call]; the function is a program over these calls, which an
    implementation of the interfaces later runs. *)
Inductive call : Type -> Type :=
| client_ValidateWebhook (webhookURL : string) : call (option error)
| client_HTTPClient : call http_Client
| message_Validate : call (option error)
| message_Prepare : call (option error)
| message_Payload : call io_Reader
| httpClient_Do (c : http_Client) (request : http_Request)
    : call (http_Response + error)
| response_Body_Close (response : http_Response) : call (option error)
| log_Printf (format : string) (args : list operand) : call unit
| context_cancel (ctxt : context_Context) : call unit.

Inductive prog (A : Type) : Type :=
| Ret (a : A)
| Call {X : Type} (c : call X) (k : X -> prog A).

Arguments Ret {A} a.
Arguments Call {A X} c k.

Fixpoint bind {A B : Type} (m : prog A) (f : A -> prog B) : prog B :=
  match m with
  | Ret a => f a
  | Call c k => Call c (fun x => bind (k x) f)
  end.

Definition call_ {X : Type} (c : call X) : prog X := Call c Ret.

Notation "x ← m ; k" := (bind m (fun x => k))
  (at level 20, m at level 100, k at level 200, only parsing).
Notation "m ;; k" := (bind m (fun _ => k))
  (at level 100, k at level 200, right associativity, only parsing).

(** [sendWithContext]; the deferred closing of the response body runs when
    the function returns, after the response was processed. *)
Definition sendWithContext (ctxt : context_Context) (webhookURL : string)
  : prog (option error) :=
  err ← call_ (client_ValidateWebhook webhookURL);
  match err with
  | Some err => Ret (Some (fmt_Errorf "webhook URL validation failed: %w" [arg_error err]))
  | None =>
  err ← call_ message_Validate;
  match err with
  | Some err => Ret (Some (fmt_Errorf "failed to validate message: %w" [arg_error err]))
  | None =>
  err ← call_ message_Prepare;
  match err with
  | Some err => Ret (Some (fmt_Errorf "failed to prepare message: %w" [arg_error err]))
  | None =>
  reader ← call_ message_Payload;
  match prepareRequest ctxt webhookURL reader with
  | inr err => Ret (Some (fmt_Errorf "failed to prepare request: %w" [arg_error err]))
  | inl request =>
  httpClient ← call_ client_HTTPClient;
  response ← call_ (httpClient_Do httpClient request);
  match response with
  | inr err => Ret (Some (fmt_Errorf "failed to send message: %w" [arg_error err]))
  | inl response =>
      result ←
        (let '(responseString, err) := processResponse response in
         match err with
         | Some err =>
             Ret (Some (fmt_Errorf "failed to process response: %w" [arg_error err]))
         | None =>
             call_ (log_Printf ("Response string: %v" +:+ str1 ch_nl)
                      [arg_string responseString]) ;;
             Ret None
         end);
      err ← call_ (response_Body_Close response);
      match err with
      | Some err =>
          call_ (log_Printf "Error closiing response body: %v" [arg_error err]) ;;
          Ret result
      | None => Ret result
      end
  end end end end end.

(** [Send]. *)
Definition Send (webhookURL : string) : prog (option error) :=
  let ctxt := context_WithTimeout context_Background WebhookSendTimeout in
  err ← sendWithContext ctxt webhookURL;
  call_ (context_cancel ctxt) ;;
  Ret err.

(** ** Running a program *)

(** What happened during a run: each call with its answer, in order. *)
Inductive event : Type :=
| Ev {X : Type} (c : call X) (answer : X).

(** An implementation answers every call and may change its state. *)
Definition handler (W : Type) : Type := forall X : Type, call X -> W -> X * W.

Fixpoint run {W A : Type} (h : handler W) (m : prog A) (w : W) : A * W * list event :=
  match m with
  | Ret a => (a, w, [])
  | Call c k =>
      let '(x, w1) := h _ c w in
      let '(a, w2, evs) := run h (k x) w1 in
      (a, w2, Ev c x :: evs)
  end.

(** ** The interfaces and the implementation the package has *)

(** [MessageSender]. *)
Class MessageSender (C : Type) : Type := {
  MessageSender_HTTPClient : C -> http_Client;
  MessageSender_ValidateWebhook : C -> string -> option error
}.

(** [messagePreparer]; the method has a pointer receiver and may write to
    the store of buffers. *)
Class messagePreparer (M : Type) : Type := {
  messagePreparer_Prepare : M -> heap -> M * heap * option error
}.

(** [messageValidator]. *)
Class messageValidator (M : Type) : Type := {
  messageValidator_Validate : M -> option error
}.

(** [teamsMessage] embeds the two interfaces above and adds [Payload]. *)
Class teamsMessage (M : Type) : Type := {
  teamsMessage_messagePreparer :: messagePreparer M;
  teamsMessage_messageValidator :: messageValidator M;
  teamsMessage_Payload : M -> io_Reader
}.

#[export] Instance TeamsClient_MessageSender : MessageSender TeamsClient := {|
  MessageSender_HTTPClient := HTTPClient;
  MessageSender_ValidateWebhook := ValidateWebhook
|}.

#[export] Instance MessageCard_messagePreparer : messagePreparer MessageCard := {|
  messagePreparer_Prepare := Prepare
|}.

#[export] Instance MessageCard_messageValidator : messageValidator MessageCard := {|
  messageValidator_Validate := Validate
|}.

#[export] Instance MessageCard_teamsMessage : teamsMessage MessageCard := {|
  teamsMessage_Payload := Payload
|}.

(** The state of a send: the message behind the pointer and the store. *)
Record world (M : Type) : Type := {
  w_message : M;
  w_heap : heap
}.

Arguments w_message {M} w.
Arguments w_heap {M} w.

(** A client and a message answer the calls of their methods; the library
    calls are answered by the network and the log. *)
Definition implementation {C M : Type} `{MessageSender C} `{teamsMessage M}
    (client : C) : handler (world M) :=
  fun X (c : call X) (w : world M) =>
    match c in call X return X * world M with
    | client_ValidateWebhook webhookURL =>
        (MessageSender_ValidateWebhook client webhookURL, w)
    | client_HTTPClient => (MessageSender_HTTPClient client, w)
    | message_Validate => (messageValidator_Validate (w_message w), w)
    | message_Prepare =>
        let '(message, h, err) := messagePreparer_Prepare (w_message w) (w_heap w) in
        (err, {| w_message := message; w_heap := h |})
    | message_Payload => (teamsMessage_Payload (w_message w), w)
    | httpClient_Do c request =>
        let '(r, h) := Client_Do c request (w_heap w) in
        (r, {| w_message := w_message w; w_heap := h |})
    | response_Body_Close response => (body_Close (Body response), w)
    | log_Printf _ _ => (tt, w)
    | context_cancel _ => (tt, w)
    end.

(** [client.Send(webhookURL, card)]: error, card and store afterwards, and
    the calls that were made. *)
Definition TeamsClient_Send (client : TeamsClient) (webhookURL : string)
    (card : MessageCard) (h : heap)
  : option error * world MessageCard * list event :=
  run (implementation client) (Send webhookURL) {| w_message := card; w_heap := h |}.

(* ===================================================================== *)
(** * Notions used in the statements *)
(* ===================================================================== *)

(** A literal with ['] standing for the double quote. *)
Fixpoint jq (s : string) : string :=
  match s with
  | EmptyString => EmptyString
  | String c t => String (if bool_decide (c = "'"%char) then ch_quote else c) (jq t)
  end.

(** [s] between double quotes, byte for byte. *)
Definition quoted (s : string) : string := String ch_quote s +:+ str1 ch_quote.

(** A card as a caller fills it in after [CreateMessageCard]. *)
Definition card_with (title text color : string) (p : option loc) : MessageCard :=
  {| Type_ := Type_ CreateMessageCard; Context := Context CreateMessageCard;
     Title := title; Text := text; Color := color; payload := p |}.

(** The bytes [Payload] gives access to. *)
Definition payload_bytes (card : MessageCard) (h : heap) : option string :=
  (fun l => unread (deref h l)) <$> payload card.

(** The address [Prepare] writes to: the buffer the card has, or a new one. *)
Definition Prepare_loc (card : MessageCard) (h : heap) : loc :=
  match payload card with
  | Some l => l
  | None => fresh (dom h)
  end.

(** A member of the wire format: nothing for an empty value, else a comma,
    the quoted key, a colon and the value as a JSON string. *)
Definition wire_member (key value : string) : string :=
  if bool_decide (value = EmptyString) then EmptyString
  else "," +:+ quoted key +:+ ":" +:+ json_string value.

(** The bytes [json_string] copies unchanged. *)
Definition json_plain (s : string) : bool :=
  string_forallb (fun c => json_htmlSafeSet (byte_val c)) s.

Definition err_title_required : error :=
  fmt_Errorf "invalid message card: title required" [].
Definition err_text_required : error :=
  fmt_Errorf "invalid message card: text required" [].

(** ** The language of a regular expression *)

Definition is_empty (s : string) : bool :=
  match s with
  | EmptyString => true
  | String _ _ => false
  end.

(** [re_matches b r s]: the whole of [s] matches [r], at the beginning of
    the text when [b] holds. *)
Inductive re_matches : bool -> regex -> string -> Prop :=
| m_eps (b : bool) : re_matches b re_eps EmptyString
| m_begin : re_matches true re_begin EmptyString
| m_lit (b : bool) (c : ascii) : re_matches b (re_lit c) (str1 c)
| m_dot (b : bool) (c : ascii) : c <> ch_nl -> re_matches b re_dot (str1 c)
| m_cat (b : bool) (r1 r2 : regex) (s1 s2 : string) :
    re_matches b r1 s1 -> re_matches (b && is_empty s1) r2 s2 ->
    re_matches b (re_cat r1 r2) (s1 +:+ s2)
| m_alt_l (b : bool) (r1 r2 : regex) (s : string) :
    re_matches b r1 s -> re_matches b (re_alt r1 r2) s
| m_alt_r (b : bool) (r1 r2 : regex) (s : string) :
    re_matches b r2 s -> re_matches b (re_alt r1 r2) s
| m_star_nil (b : bool) (r : regex) : re_matches b (re_star r) EmptyString
| m_star_step (b : bool) (r : regex) (c : ascii) (s1 s2 : string) :
    re_matches b r (String c s1) -> re_matches false (re_star r) s2 ->
    re_matches b (re_star r) (String c s1 +:+ s2).

(** A run of literals before [r]. *)
Fixpoint re_lits (w : string) (r : regex) : regex :=
  match w with
  | EmptyString => r
  | String c t => re_cat (re_lit c) (re_lits t r)
  end.

(** The pattern of the package, compiled. *)
Definition webhook_re : regex :=
  re_cat re_begin
    (re_lits "https://"
       (re_cat
          (re_alt (re_cat (re_star re_dot) (re_lits ".webhoo" (re_lit "k")))
                  (re_lits "outloo" (re_lit "k")))
          (re_lits ".office"
             (re_cat (re_alt (re_lits "36" (re_lit "5")) re_eps)
                     (re_lits ".co" (re_lit "m")))))).

Definition no_newline (s : string) : bool :=
  string_forallb (fun c => negb (bool_decide (c = ch_nl))) s.

(** What the pattern asks of the text of a webhook URL: it begins with
    [https://], then either anything without a newline followed by
    [.webhook], or [outlook]; then [.office], then [365] or nothing, then
    [.com]; what follows is free. *)
Definition webhook_prefix (s : string) : Prop :=
  exists sub digits rest : string,
    s = "https://" +:+ sub +:+ ".office" +:+ digits +:+ ".com" +:+ rest
    /\ (sub = "outlook" \/ exists x, sub = x +:+ ".webhook" /\ no_newline x = true)
    /\ (digits = "365" \/ digits = EmptyString).

(** The hosts the specification names: a name under [webhook.office.com]
    or [webhook.office365.com], or [outlook.office.com] or
    [outlook.office365.com]. *)
Definition office_host (host : string) : bool :=
  strings_HasSuffix host ".webhook.office.com"
  || strings_HasSuffix host ".webhook.office365.com"
  || bool_decide (host = "outlook.office.com")
  || bool_decide (host = "outlook.office365.com").

(** The validity of a webhook URL in the words of the specification: the
    text parses as a URL whose scheme is [https] and whose host is one of
    the hosts above. *)
Definition office_webhook_url (webhookURL : string) : Prop :=
  exists u : url_URL,
    url_Parse webhookURL = inl u /\ Scheme u = "https" /\ office_host (Host u) = true.

(** ** Runs of [sendWithContext] *)

(** The answer of [processResponse] as [sendWithContext] returns it. *)
Definition response_result (response : http_Response) : option error :=
  match processResponse response with
  | (_, Some err) => Some (fmt_Errorf "failed to process response: %w" [arg_error err])
  | (_, None) => None
  end.

(** The calls made once a response has arrived: the log line of a good
    response, then the deferred closing of the body and the log line of a
    failed closing. *)
Definition response_events (response : http_Response) (closed : option error)
  : list event :=
  match processResponse response with
  | (_, Some _) => []
  | (responseString, None) =>
      [Ev (log_Printf ("Response string: %v" +:+ str1 ch_nl) [arg_string responseString]) tt]
  end
  ++ Ev (response_Body_Close response) closed
  :: match closed with
     | Some err => [Ev (log_Printf "Error closiing response body: %v" [arg_error err]) tt]
     | None => []
     end.

(** The runs a call of [sendWithContext] can have: the calls made with
    their answers, and the error returned.  One rule for each place where
    the function returns. *)
Inductive send_run (ctxt : context_Context) (webhookURL : string)
  : list event -> option error -> Prop :=
| run_url_invalid (err : error) :
    send_run ctxt webhookURL
      [Ev (client_ValidateWebhook webhookURL) (Some err)]
      (Some (fmt_Errorf "webhook URL validation failed: %w" [arg_error err]))
| run_message_invalid (err : error) :
    send_run ctxt webhookURL
      [Ev (client_ValidateWebhook webhookURL) None;
       Ev message_Validate (Some err)]
      (Some (fmt_Errorf "failed to validate message: %w" [arg_error err]))
| run_prepare_failed (err : error) :
    send_run ctxt webhookURL
      [Ev (client_ValidateWebhook webhookURL) None;
       Ev message_Validate None;
       Ev message_Prepare (Some err)]
      (Some (fmt_Errorf "failed to prepare message: %w" [arg_error err]))
| run_request_failed (reader : io_Reader) (err : error) :
    prepareRequest ctxt webhookURL reader = inr err ->
    send_run ctxt webhookURL
      [Ev (client_ValidateWebhook webhookURL) None;
       Ev message_Validate None;
       Ev message_Prepare None;
       Ev message_Payload reader]
      (Some (fmt_Errorf "failed to prepare request: %w" [arg_error err]))
| run_send_failed (reader : io_Reader) (request : http_Request) (c : http_Client)
    (err : error) :
    prepareRequest ctxt webhookURL reader = inl request ->
    send_run ctxt webhookURL
      [Ev (client_ValidateWebhook webhookURL) None;
       Ev message_Validate None;
       Ev message_Prepare None;
       Ev message_Payload reader;
       Ev client_HTTPClient c;
       Ev (httpClient_Do c request) (inr err)]
      (Some (fmt_Errorf "failed to send message: %w" [arg_error err]))
| run_response (reader : io_Reader) (request : http_Request) (c : http_Client)
    (response : http_Response) (closed : option error) :
    prepareRequest ctxt webhookURL reader = inl request ->
    send_run ctxt webhookURL
      ([Ev (client_ValidateWebhook webhookURL) None;
        Ev message_Validate None;
        Ev message_Prepare None;
        Ev message_Payload reader;
        Ev client_HTTPClient c;
        Ev (httpClient_Do c request) (inl response)]
       ++ response_events response closed)
      (response_result response).

(** The steps of a send that the specification names. *)
Inductive step :=
| step_ValidateWebhook | step_Validate | step_Prepare | step_request | step_other.

Definition step_of (e : event) : step :=
  match e with
  | @Ev _ c _ =>
      match c with
      | client_ValidateWebhook _ => step_ValidateWebhook
      | message_Validate => step_Validate
      | message_Prepare => step_Prepare
      | httpClient_Do _ _ => step_request
      | _ => step_other
      end
  end.

(** The named steps of a run, in order. *)
Definition named_steps (evs : list event) : list step :=
  List.filter (fun s => match s with step_other => false | _ => true end)
    (List.map step_of evs).

(** A named step that answered with an error, and that error. *)
Definition failed_step (e : event) : option (step * error) :=
  match e with
  | @Ev _ c answer =>
      match c in call X return X -> option (step * error) with
      | client_ValidateWebhook _ => fun answer => pair step_ValidateWebhook <$> answer
      | message_Validate => fun answer => pair step_Validate <$> answer
      | message_Prepare => fun answer => pair step_Prepare <$> answer
      | httpClient_Do _ _ =>
          fun answer => match answer with
                        | inl _ => None
                        | inr err => Some (step_request, err)
                        end
      | _ => fun _ => None
      end answer
  end.

(** The format under which [sendWithContext] wraps the error of a step. *)
Definition step_format (st : step) : string :=
  match st with
  | step_ValidateWebhook => "webhook URL validation failed: %w"
  | step_Validate => "failed to validate message: %w"
  | step_Prepare => "failed to prepare message: %w"
  | step_request => "failed to send message: %w"
  | step_other => EmptyString
  end.

(** At most one step of the run failed; if one did, it is the last call of
    the run and the error returned is its error under the format of the
    step. *)
Definition aborts_at_failure (evs : list event) (err : option error) : Prop :=
  match omap failed_step evs with
  | [] => True
  | [(st, e)] =>
      (exists pre ev, evs = pre ++ [ev] /\ failed_step ev = Some (st, e))
      /\ err = Some (fmt_Errorf (step_format st) [arg_error e])
  | _ => False
  end.

(** The HTTP exchanges among the events: client, request and outcome. *)
Definition exchange_of (e : event)
  : option (http_Client * http_Request * (http_Response + error)) :=
  match e with
  | @Ev _ c answer =>
      match c in call X return X -> option _ with
      | httpClient_Do cl request => fun answer => Some (cl, request, answer)
      | _ => fun _ => None
      end answer
  end.

Definition exchanges (evs : list event)
  : list (http_Client * http_Request * (http_Response + error)) :=
  omap exchange_of evs.

(** Two networks for examples: an endpoint that reads the whole request
    and answers with a fixed response, and an exchange that ends with an
    error. *)
Definition endpoint (response : http_Response) : http_Client :=
  {| exchange := fun _ avail => (String.length avail, inl response) |}.

Definition no_answer (text : string) : http_Client :=
  {| exchange := fun _ _ => (0%nat, inr text) |}.

Definition response_of (code : Z) (status body : string) : http_Response :=
  {| Status := status; StatusCode := code;
     Body := {| body_data := body; body_readErr := None; body_closeErr := None |} |}.

(** The error an endpoint status of 299 or more gives. *)
Definition endpoint_error (status body : string) : error :=
  fmt_Errorf "error on code: %v, %q" [arg_string status; arg_string body].

(** The error a body other than the expected text gives. *)
Definition response_text_error (body : string) : error :=
  fmt_Errorf "got %q, expected %q: %w"
    [arg_string body; arg_string ExpectedEndpointResponseText;
     arg_error ErrInvalidResponseText].

(** ** Further readings of a run *)

(** The readers [Payload] returned. *)
Definition payload_of (e : event) : option io_Reader :=
  match e with
  | @Ev _ c answer =>
      match c in call X return X -> option io_Reader with
      | message_Payload => fun answer => Some answer
      | _ => fun _ => None
      end answer
  end.

(** The clients [HTTPClient] returned. *)
Definition httpClient_of (e : event) : option http_Client :=
  match e with
  | @Ev _ c answer =>
      match c in call X return X -> option http_Client with
      | client_HTTPClient => fun answer => Some answer
      | _ => fun _ => None
      end answer
  end.

(** The response bodies closed, each with what closing answered. *)
Definition close_of (e : event) : option (http_Response * option error) :=
  match e with
  | @Ev _ c answer =>
      match c in call X return X -> option (http_Response * option error) with
      | response_Body_Close response => fun answer => Some (response, answer)
      | _ => fun _ => None
      end answer
  end.

(** The contexts cancelled. *)
Definition cancel_of (e : event) : option context_Context :=
  match e with
  | @Ev _ c _ =>
      match c with
      | context_cancel ctxt => Some ctxt
      | _ => None
      end
  end.

(** The lines written to the log: format and operands. *)
Definition log_of (e : event) : option (string * list operand) :=
  match e with
  | @Ev _ c _ =>
      match c with
      | log_Printf format args => Some (format, args)
      | _ => None
      end
  end.

(** The responses among the outcomes of the exchanges. *)
Definition responses (evs : list event) : list http_Response :=
  omap (fun x : http_Client * http_Request * (http_Response + error) =>
          match snd x with
          | inl response => Some response
          | inr _ => None
          end) (exchanges evs).

(** The response is the one the endpoint gives for an accepted message. *)
Definition accepted_response (response : http_Response) : Prop :=
  body_readErr (Body response) = None
  /\ StatusCode response < 299
  /\ body_data (Body response) = "1".

(** The context [Send] works under. *)
Definition Send_context : context_Context :=
  context_WithTimeout context_Background WebhookSendTimeout.

(** The URL of a request made for a parsed URL. *)
Definition request_URL (u : url_URL) : url_URL :=
  {| Scheme := Scheme u; Opaque := Opaque u; User := User u;
     Host := http_removeEmptyPort (Host u); Path := Path u;
     ForceQuery := ForceQuery u; RawQuery := RawQuery u; Fragment := Fragment u |}.

(** The exported fields of two cards are the same. *)
Definition same_fields (a b : MessageCard) : Prop :=
  Type_ a = Type_ b /\ Context a = Context b /\ Title a = Title b
  /\ Text a = Text b /\ Color a = Color b.

(** An error made by [net/url]. *)
Definition is_url_error (e : error) : Prop := exists text, e = url_error text.

(** A byte of value [0x20] or more that is none of [<], [>], [&]: what
    the encoder of strings copies as it is or writes as part of an escape.
    [DEL] ([0x7f]) is such a byte. *)
Definition html_safe_byte (c : ascii) : bool :=
  let b := byte_val c in
  (0x20 <=? b) && negb ((b =? 38) || (b =? 60) || (b =? 62)).

(** A byte outside ASCII. *)
Definition high_byte (c : ascii) : bool := 0x80 <=? byte_val c.

(** An ASCII control character, as [net/url] understands it. *)
Definition control_byte (c : ascii) : bool :=
  (byte_val c <? 32) || (byte_val c =? 0x7f).

(* ===================================================================== *)
(** * main.go *)
(* ===================================================================== *)

(** [jsonMsg]; the fields [Title] and [Text] carry the name of the struct,
    the card having fields of the same names. *)
Record jsonMsg := {
  WebhookURL : string;      (* json:"webhookURL" *)
  jsonMsg_Title : string;   (* json:"title" *)
  jsonMsg_Text : string     (* json:"text" *)
}.

(** What [main] finds outside the program: the command line, the files
    ([os.Open] followed by [io.ReadAll], whose error [main] drops), the
    decoding of the bytes of a file into a [jsonMsg] by [json.Unmarshal],
    which is taken as given, and the network. *)
Record main_env := {
  os_Args : list string;
  os_Open_ReadAll : string -> string + string;
  json_Unmarshal : string -> jsonMsg * option string;
  main_network : http_Client
}.

(** A line [main] writes: with [log.Fatal], [log.Printf] or [fmt.Printf]. *)
Inductive main_line :=
| log_Fatal (args : list operand)
| main_log_Printf (format : string) (args : list operand)
| fmt_Printf (format : string) (args : list operand).

(** What a run of [main] leaves behind: the exit status of the process, the
    lines written and the calls of the [Send] it made, if it made one. *)
Record main_result := {
  exit_status : Z;
  main_lines : list main_line;
  main_events : list event
}.

(** [log.Fatal] writes the line and exits with status 1. *)
Definition fatal (args : list operand) : main_result :=
  {| exit_status := 1; main_lines := [log_Fatal args]; main_events := [] |}.

(** The card [main] fills in. *)
Definition main_card (jsonMessage : jsonMsg) : MessageCard :=
  {| Type_ := Type_ CreateMessageCard; Context := Context CreateMessageCard;
     Title := jsonMsg_Title jsonMessage; Text := jsonMsg_Text jsonMessage;
     Color := Color CreateMessageCard; payload := payload CreateMessageCard |}.

(** [main]. *)
Definition main (env : main_env) : main_result :=
  if (length (os_Args env) <? 2)%nat then
    fatal [arg_string "Usage: go run main.go <inputfile.json>"]
  else
    let inputFile := nth 1 (os_Args env) EmptyString in
    match os_Open_ReadAll env inputFile with
    | inr err =>
        fatal [arg_string ("Failed to open json" +:+ str1 ch_nl);
               arg_error (lib_error "os" err)]
    | inl byteValue =>
        let '(jsonMessage, err) := json_Unmarshal env byteValue in
        match err with
        | Some err =>
            fatal [arg_string ("Failed to parse json" +:+ str1 ch_nl);
                   arg_error (lib_error "encoding/json" err)]
        | None =>
            let webhookURL := WebhookURL jsonMessage in
            if bool_decide (webhookURL = EmptyString) then
              fatal [arg_string ("error: Missing webhook URL" +:+ str1 ch_nl)]
            else
              let titleData := jsonMsg_Title jsonMessage in
              let textData := jsonMsg_Text jsonMessage in
              let client := CreateTeamsClient (main_network env) in
              let card := main_card jsonMessage in
              let '(err, _, evs) := TeamsClient_Send client webhookURL card ∅ in
              match err with
              | Some err =>
                  {| exit_status := 1;
                     main_lines :=
                       [main_log_Printf "failed to send message: %v" [arg_error err]];
                     main_events := evs |}
              | None =>
                  {| exit_status := 0;
                     main_lines :=
                       [fmt_Printf
                          (str1 ch_nl +:+ "This is the webhookURL: %s" +:+ str1 ch_nl
                           +:+ "This is the titleData: %s" +:+ str1 ch_nl
                           +:+ "This is the textData: %s" +:+ str1 ch_nl)
                          [arg_string webhookURL; arg_string titleData;
                           arg_string textData]];
                     main_events := evs |}
              end
        end
    end.

(** The bytes [main] posts for a title and a text. *)
Definition main_wire (title text : string) : string :=
  jq "{'@type':'MessageCard','@context':'https://schema.org/extensions'"
  +:+ wire_member "title" title +:+ wire_member "text" text +:+ "}".

(* ===================================================================== *)
(** * Message cards: validation *)
(* ===================================================================== *)

Section validate.
Implicit Types card : MessageCard.

Lemma Validate_title_empty card :
  Title card = EmptyString -> Validate card = Some err_title_required.
Proof. intros H. unfold Validate. rewrite H. reflexivity. Qed.

Lemma Validate_text_empty card :
  Title card <> EmptyString -> Text card = EmptyString ->
  Validate card = Some err_text_required.
Proof.
  intros Ht Hx. unfold Validate.
  rewrite bool_decide_eq_false_2 by assumption. rewrite Hx. reflexivity.
Qed.

Lemma Validate_ok card :
  Title card <> EmptyString -> Text card <> EmptyString -> Validate card = None.
Proof.
  intros Ht Hx. unfold Validate.
  rewrite !bool_decide_eq_false_2 by assumption. reflexivity.
Qed.
End validate.

(** C3. [Validate] succeeds exactly when [Title] and [Text] are both
    non-empty; an empty [Title] gives the title-required error, a non-empty
    [Title] with an empty [Text] gives the text-required error, and two cards
    with the same [Title] and [Text] get the same answer whatever their other
    fields ([Type], [Context], [Color], [payload]) hold. *)
Theorem Validate_title_and_text (card : MessageCard) :
  (Validate card = None <-> Title card <> EmptyString /\ Text card <> EmptyString)
  /\ (Title card = EmptyString -> Validate card = Some err_title_required)
  /\ (Title card <> EmptyString -> Text card = EmptyString ->
      Validate card = Some err_text_required)
  /\ (forall other : MessageCard,
        Title other = Title card -> Text other = Text card ->
        Validate other = Validate card).
Proof.
  split; [split | split; [| split]].
  - intros Hv. split.
    + intros Ht. rewrite (Validate_title_empty _ Ht) in Hv. discriminate.
    + intros Hx. destruct (decide (Title card = EmptyString)) as [Ht|Ht].
      * rewrite (Validate_title_empty _ Ht) in Hv. discriminate.
      * rewrite (Validate_text_empty _ Ht Hx) in Hv. discriminate.
  - intros [Ht Hx]. now apply Validate_ok.
  - apply Validate_title_empty.
  - apply Validate_text_empty.
  - intros other Ht Hx. unfold Validate. rewrite Ht, Hx. reflexivity.
Qed.

Lemma Validate_title_and_text_witness :
  Validate (card_with "Build" "passed" EmptyString None) = None
  /\ Validate (card_with EmptyString "passed" "red" None) = Some err_title_required
  /\ Validate (card_with "Build" EmptyString "red" None) = Some err_text_required
  /\ Validate (card_with "Build" "passed" "red" (Some 7%positive))
     = Validate (card_with "Build" "passed" EmptyString None).
Proof.
  split; [|split; [|split]].
  - destruct (Validate_title_and_text (card_with "Build" "passed" EmptyString None))
      as (Hiff & _).
    apply Hiff. split; discriminate.
  - destruct (Validate_title_and_text (card_with EmptyString "passed" "red" None))
      as (_ & Htitle & _ & _).
    apply Htitle. reflexivity.
  - destruct (Validate_title_and_text (card_with "Build" EmptyString "red" None))
      as (_ & _ & Htext & _).
    apply Htext; [discriminate | reflexivity].
  - destruct (Validate_title_and_text (card_with "Build" "passed" EmptyString None))
      as (_ & _ & _ & Hsame).
    apply Hsame; reflexivity.
Defined.

(** C9. When [Title] and [Text] are both empty, [Validate] reports the
    missing title and not the missing text: the title is checked first. *)
Theorem Validate_title_before_text (card : MessageCard) :
  Title card = EmptyString -> Text card = EmptyString ->
  Validate card = Some err_title_required
  /\ Validate card <> Some err_text_required.
Proof.
  intros Ht _. rewrite (Validate_title_empty _ Ht). split; [reflexivity | discriminate].
Qed.

Lemma Validate_title_before_text_witness :
  Validate CreateMessageCard = Some err_title_required
  /\ Validate CreateMessageCard <> Some err_text_required.
Proof. apply (Validate_title_before_text CreateMessageCard); reflexivity. Defined.

(* ===================================================================== *)
(** * Message cards: serialization *)
(* ===================================================================== *)

#[local] Arguments String.append !_ _ / : simpl nomatch.

Lemma append_assoc_str (a b c : string) : (a +:+ b) +:+ c = a +:+ (b +:+ c).
Proof. induction a as [|x a IH]; [reflexivity | simpl; now f_equal]. Qed.

Lemma set_payload_same (card : MessageCard) (l : loc) :
  payload card = Some l -> set_payload card (Some l) = card.
Proof. destruct card; simpl; intros ->; reflexivity. Qed.

(** [Prepare] in one equation: the card points to the buffer, and the buffer
    holds the encoding and nothing else. *)
Lemma Prepare_eq (card : MessageCard) (h : heap) :
  Prepare card h =
    (set_payload card (Some (Prepare_loc card h)),
     <[Prepare_loc card h := {| unread := fst (json_Marshal card) |}]> h,
     None).
Proof.
  unfold Prepare, Prepare_loc, alloc, store, deref, Buffer_Write, Buffer_Reset. simpl.
  destruct (payload card) as [l|] eqn:Hp.
  - rewrite lookup_insert_eq. simpl. rewrite insert_insert_eq.
    rewrite set_payload_same by assumption. reflexivity.
  - rewrite lookup_insert_eq. simpl. rewrite insert_insert_eq. reflexivity.
Qed.

Lemma payload_bytes_Prepare (card : MessageCard) (h : heap) :
  payload_bytes (fst (fst (Prepare card h))) (snd (fst (Prepare card h)))
  = Some (fst (json_Marshal card)).
Proof.
  rewrite Prepare_eq. unfold payload_bytes, deref. simpl.
  rewrite lookup_insert_eq. reflexivity.
Qed.

(** A card that already points to a buffer: [Prepare] overwrites it. *)
Lemma Prepare_again (card : MessageCard) (h : heap) (l : loc) (b : bytes_Buffer) :
  Prepare (set_payload card (Some l)) (<[l := b]> h)
  = (set_payload card (Some l), <[l := {| unread := fst (json_Marshal card) |}]> h, None).
Proof.
  rewrite Prepare_eq. unfold Prepare_loc. simpl payload. cbv beta iota.
  rewrite insert_insert_eq. reflexivity.
Qed.

(** C7. Whatever the card's buffer held before, after [Prepare] it holds
    exactly the encoding of the card; a second [Prepare] with the fields
    unchanged changes neither the card nor any buffer, so the payload is the
    same bytes and not the encoding twice. *)
Theorem Prepare_twice_same_payload (card : MessageCard) (h : heap) :
  let '(card1, h1, err1) := Prepare card h in
  let '(card2, h2, err2) := Prepare card1 h1 in
  err1 = None /\ err2 = None
  /\ payload_bytes card1 h1 = Some (fst (json_Marshal card))
  /\ payload_bytes card2 h2 = payload_bytes card1 h1
  /\ card2 = card1 /\ h2 = h1.
Proof.
  pose proof (payload_bytes_Prepare card h) as Hbytes.
  rewrite Prepare_eq in Hbytes |- *. simpl fst in Hbytes. simpl snd in Hbytes.
  rewrite Prepare_again.
  repeat split; assumption || reflexivity.
Qed.

(** The loop of the string encoder takes at least one byte of a string
    that is not empty, so the length of the string is fuel enough: more
    fuel gives the same bytes. *)
Lemma utf8_DecodeRuneInString_size (s : string) :
  s <> EmptyString ->
  (1 <= snd (utf8_DecodeRuneInString s) <= 4)%nat.
Proof.
  intros Hs. unfold utf8_DecodeRuneInString.
  destruct s as [|c s]; [contradiction|]. cbn [String.length Nat.ltb Nat.leb].
  repeat match goal with
         | |- context [if ?b then _ else _] => destruct b
         end; simpl; lia.
Qed.

Lemma length_slice_from (n : nat) (s : string) :
  String.length (slice_from n s) = (String.length s - n)%nat.
Proof.
  revert s. induction n as [|n IH]; intros [|c s]; simpl; try reflexivity; try lia.
  apply IH.
Qed.

Lemma json_string_body_fuel (fuel1 fuel2 : nat) (s : string) :
  (String.length s <= fuel1)%nat -> (String.length s <= fuel2)%nat ->
  json_string_body fuel1 s = json_string_body fuel2 s.
Proof.
  revert fuel2 s. induction fuel1 as [|fuel1 IH]; intros fuel2 s H1 H2.
  - destruct s; simpl in H1; [|lia]. destruct fuel2; reflexivity.
  - destruct fuel2 as [|fuel2].
    + destruct s; simpl in H2; [reflexivity | lia].
    + destruct s as [|c s]; [reflexivity|]. simpl in H1, H2.
      cbn [json_string_body].
      pose proof (utf8_DecodeRuneInString_size (String c s)) as Hsize.
      destruct (utf8_DecodeRuneInString (String c s)) as [r size].
      simpl in Hsize. specialize (Hsize ltac:(discriminate)).
      assert (String.length (slice_from size (String c s)) <= fuel1)%nat as Ha
        by (rewrite length_slice_from; simpl; lia).
      assert (String.length (slice_from size (String c s)) <= fuel2)%nat as Hb
        by (rewrite length_slice_from; simpl; lia).
      rewrite (IH fuel2 s) by lia.
      rewrite (IH fuel2 (slice_from size (String c s)) Ha Hb).
      reflexivity.
Qed.

Lemma json_string_body_plain (s : string) (fuel : nat) :
  (String.length s <= fuel)%nat -> json_plain s = true -> json_string_body fuel s = s.
Proof.
  revert fuel. induction s as [|c s IH]; intros fuel Hlen Hplain.
  - destruct fuel; reflexivity.
  - destruct fuel as [|fuel]; simpl in Hlen; [lia|].
    simpl in Hplain. apply andb_true_iff in Hplain as [Hc Hs].
    simpl. rewrite Hc.
    assert ((byte_val c <? utf8_RuneSelf) = true) as ->.
    { unfold json_htmlSafeSet in Hc. unfold utf8_RuneSelf.
      apply andb_true_iff in Hc as [Hc _]. apply andb_true_iff in Hc as [_ Hc].
      exact Hc. }
    rewrite IH; [reflexivity | lia | assumption].
Qed.

Lemma json_string_plain (s : string) : json_plain s = true -> json_string s = quoted s.
Proof.
  intros H. unfold json_string, quoted.
  rewrite json_string_body_plain; [reflexivity | lia | assumption].
Qed.

Lemma json_Marshal_card_with (title text color : string) (p : option loc) :
  fst (json_Marshal (card_with title text color p))
  = jq "{'@type':'MessageCard','@context':'https://schema.org/extensions'"
    +:+ wire_member "title" title +:+ wire_member "text" text
    +:+ wire_member "color" color +:+ "}".
Proof.
  unfold json_Marshal, json_struct, MessageCard_json_fields, wire_member. simpl.
  destruct (bool_decide (title = EmptyString));
    destruct (bool_decide (text = EmptyString));
    destruct (bool_decide (color = EmptyString)); simpl;
    repeat (rewrite !append_assoc_str; simpl); reflexivity.
Qed.

(** C6 (amended). For a card made by [CreateMessageCard] and then filled in,
    the payload [Prepare] stores is the JSON object that starts with
    [@type] = [MessageCard] and [@context] = [https://schema.org/extensions],
    followed by the members [title], [text], [color] in that order, each
    left out when its field is empty and otherwise holding the field as
    [encoding/json] writes a string.  That string is the field byte for byte
    between double quotes when every byte is an ASCII character from the
    space to DEL other than the double quote, [&], [<], [>] and the
    backslash. *)
Theorem Prepare_payload_wire_format (title text color : string) (p : option loc)
    (h : heap) :
  let '(card, h', err) := Prepare (card_with title text color p) h in
  err = None
  /\ payload_bytes card h'
     = Some (jq "{'@type':'MessageCard','@context':'https://schema.org/extensions'"
             +:+ wire_member "title" title +:+ wire_member "text" text
             +:+ wire_member "color" color +:+ "}")
  /\ Title card = title /\ Text card = text /\ Color card = color
  /\ (forall v : string, json_plain v = true -> json_string v = quoted v).
Proof.
  pose proof (payload_bytes_Prepare (card_with title text color p) h) as Hbytes.
  rewrite json_Marshal_card_with in Hbytes.
  rewrite Prepare_eq in Hbytes |- *. simpl in Hbytes.
  repeat split; try assumption. apply json_string_plain.
Qed.

Lemma Prepare_payload_wire_format_witness :
  json_string "Build #12 passed" = quoted "Build #12 passed".
Proof.
  pose proof (Prepare_payload_wire_format "Build #12 passed" "ok" EmptyString None ∅)
    as Hwire.
  rewrite Prepare_eq in Hwire.
  destruct Hwire as (_ & _ & _ & _ & _ & Hplain).
  apply Hplain. reflexivity.
Defined.

(** C6 as stated fails: [&] is written as an escape and a byte that is not
    valid UTF-8 (here 0xE9, Latin-1 for e-acute) is replaced, so neither
    field is in the payload byte for byte. *)
Lemma payload_not_verbatim :
  let title := "R&D" in
  let text := "caf" +:+ str1 (byte_of 0xE9) in
  let wire :=
    jq "{'@type':'MessageCard','@context':'https://schema.org/extensions',"
    +:+ jq "'title':'R" +:+ String ch_backslash (jq "u0026D','text':'caf")
    +:+ String ch_backslash (jq "ufffd'}") in
  let result := Prepare (card_with title text EmptyString None) ∅ in
  payload_bytes (fst (fst result)) (snd (fst result)) = Some wire
  /\ strings_Contains wire (quoted title) = false
  /\ strings_Contains wire (quoted text) = false
  /\ strings_Contains wire text = false.
Proof.
  cbv zeta. split.
  - rewrite payload_bytes_Prepare. vm_compute. reflexivity.
  - vm_compute. repeat split.
Qed.

(* ===================================================================== *)
(** * The sender: processing a response *)
(* ===================================================================== *)

Lemma TrimSpace_expected :
  strings_TrimSpace ExpectedEndpointResponseText = "1".
Proof. reflexivity. Qed.

(** What [processResponse] returns, case by case. *)
Lemma processResponse_read_failed (response : http_Response) (text : string) :
  body_readErr (Body response) = Some text ->
  processResponse response = (EmptyString, Some (http_error text)).
Proof. intros H. unfold processResponse, io_ReadAll. rewrite H. reflexivity. Qed.

Lemma processResponse_status (response : http_Response) :
  body_readErr (Body response) = None -> 299 <= StatusCode response ->
  processResponse response
  = (EmptyString,
     Some (endpoint_error (Status response) (body_data (Body response)))).
Proof.
  intros H Hs. unfold processResponse, io_ReadAll. rewrite H. simpl.
  rewrite (proj2 (Z.leb_le _ _)) by assumption. reflexivity.
Qed.

Lemma processResponse_text (response : http_Response) :
  body_readErr (Body response) = None -> StatusCode response < 299 ->
  body_data (Body response) <> "1" ->
  processResponse response
  = (EmptyString, Some (response_text_error (body_data (Body response)))).
Proof.
  intros H Hs Hb. unfold processResponse, io_ReadAll. rewrite H. simpl.
  rewrite (proj2 (Z.leb_gt _ _)) by assumption.
  rewrite TrimSpace_expected. rewrite bool_decide_eq_false_2 by assumption.
  reflexivity.
Qed.

Lemma processResponse_ok (response : http_Response) :
  body_readErr (Body response) = None -> StatusCode response < 299 ->
  body_data (Body response) = "1" ->
  processResponse response = ("1", None).
Proof.
  intros H Hs Hb. unfold processResponse, io_ReadAll. rewrite H. simpl.
  rewrite (proj2 (Z.leb_gt _ _)) by assumption.
  rewrite TrimSpace_expected, Hb. reflexivity.
Qed.

(** With a status below 299 and a body that could be read, the response is
    accepted exactly when the body is the one byte [1]. *)
Lemma processResponse_ok_iff (response : http_Response) :
  body_readErr (Body response) = None -> StatusCode response < 299 ->
  (snd (processResponse response) = None <-> body_data (Body response) = "1").
Proof.
  intros H Hs. split.
  - intros Hok. destruct (decide (body_data (Body response) = "1")) as [|Hne];
      [assumption|].
    rewrite (processResponse_text _ H Hs Hne) in Hok. discriminate.
  - intros Hb. rewrite (processResponse_ok _ H Hs Hb). reflexivity.
Qed.

(* ===================================================================== *)
(** * The sender: the runs of sendWithContext *)
(* ===================================================================== *)

Section runs.
Context {W : Type} (h : handler W).

(** Every run of [sendWithContext], with any implementation of the two
    interfaces and any network, is one of the runs of [send_run]. *)
Lemma sendWithContext_run (ctxt : context_Context) (webhookURL : string) (w : W) :
  send_run ctxt webhookURL
    (snd (run h (sendWithContext ctxt webhookURL) w))
    (fst (fst (run h (sendWithContext ctxt webhookURL) w))).
Proof.
  unfold sendWithContext, call_. simpl.
  destruct (h _ (client_ValidateWebhook webhookURL) w) as [[e|] w1]; simpl.
  { apply run_url_invalid. }
  destruct (h _ message_Validate w1) as [[e|] w2]; simpl.
  { apply run_message_invalid. }
  destruct (h _ message_Prepare w2) as [[e|] w3]; simpl.
  { apply run_prepare_failed. }
  destruct (h _ message_Payload w3) as [reader w4]; simpl.
  destruct (prepareRequest ctxt webhookURL reader) as [request|e] eqn:Hreq; simpl.
  2:{ now apply run_request_failed. }
  destruct (h _ client_HTTPClient w4) as [c w5]; simpl.
  destruct (h _ (httpClient_Do c request) w5) as [[response|e] w6]; simpl.
  2:{ now apply run_send_failed. }
  pose proof (run_response ctxt webhookURL reader request c response) as Hrun.
  unfold response_events, response_result in Hrun.
  destruct (processResponse response) as [responseString [e|]]; simpl.
  - destruct (h _ (response_Body_Close response) w6) as [[ce|] w7]; simpl.
    + destruct (h _ (log_Printf _ _) w7) as [[] w8]; simpl.
      now apply (Hrun (Some ce)).
    + now apply (Hrun None).
  - destruct (h _ (log_Printf _ _) w6) as [[] w7]; simpl.
    destruct (h _ (response_Body_Close response) w7) as [[ce|] w8]; simpl.
    + destruct (h _ (log_Printf _ _) w8) as [[] w9]; simpl.
      now apply (Hrun (Some ce)).
    + now apply (Hrun None).
Qed.

Lemma run_bind {A B : Type} (m : prog A) (f : A -> prog B) (w : W) :
  run h (bind m f) w
  = let '(a, w1, evs1) := run h m w in
    let '(b, w2, evs2) := run h (f a) w1 in
    (b, w2, evs1 ++ evs2).
Proof.
  revert w. induction m as [a|X c k IH]; intros w; simpl.
  - destruct (run h (f a) w) as [[b w2] evs2]. reflexivity.
  - destruct (h X c w) as [x w1]. rewrite IH.
    destruct (run h (k x) w1) as [[a w2] evs1].
    destruct (run h (f a) w2) as [[b w3] evs2]. reflexivity.
Qed.

(** [Send] runs [sendWithContext] under the context with the timeout and
    then cancels that context. *)
Lemma Send_run (webhookURL : string) (w : W) :
  let ctxt := context_WithTimeout context_Background WebhookSendTimeout in
  exists evs : list event,
    snd (run h (Send webhookURL) w) = evs ++ [Ev (context_cancel ctxt) tt]
    /\ send_run ctxt webhookURL evs (fst (fst (run h (Send webhookURL) w))).
Proof.
  intros ctxt. unfold Send. fold ctxt. rewrite run_bind.
  pose proof (sendWithContext_run ctxt webhookURL w) as Hrun.
  destruct (run h (sendWithContext ctxt webhookURL) w) as [[err w1] evs].
  simpl in Hrun. unfold call_. simpl.
  destruct (h unit (context_cancel ctxt) w1) as [[] w2]. simpl.
  exists evs. split; [reflexivity | assumption].
Qed.

End runs.

(** The request carries the context it was prepared under. *)
Lemma prepareRequest_ctx (ctxt : context_Context) (webhookURL : string)
    (reader : io_Reader) (request : http_Request) :
  prepareRequest ctxt webhookURL reader = inl request -> req_ctx request = ctxt.
Proof.
  unfold prepareRequest, http_NewRequestWithContext, bind_res.
  destruct (url_Parse webhookURL); [|discriminate].
  intros [= <-]. reflexivity.
Qed.

Lemma exchanges_response_events (response : http_Response) (closed : option error) :
  exchanges (response_events response closed) = [].
Proof.
  unfold response_events.
  destruct (processResponse response) as [? [?|]]; destruct closed; reflexivity.
Qed.

(** A run has at most one exchange, made under the context of the run;
    its outcome decides the error returned. *)
Lemma send_run_exchanges (ctxt : context_Context) (webhookURL : string)
    (evs : list event) (err : option error) :
  send_run ctxt webhookURL evs err ->
  exchanges evs = []
  \/ exists c request outcome,
       exchanges evs = [(c, request, outcome)]
       /\ req_ctx request = ctxt
       /\ err = match outcome with
                | inr e => Some (fmt_Errorf "failed to send message: %w" [arg_error e])
                | inl response => response_result response
                end.
Proof.
  intros Hrun. destruct Hrun as [| | | |reader request c e Hreq
                                |reader request c response closed Hreq];
    try (left; reflexivity).
  - right. exists c, request, (inr e). repeat split.
    eapply prepareRequest_ctx; eassumption.
  - right. exists c, request, (inl response).
    unfold exchanges. rewrite omap_app. fold (exchanges (response_events response closed)).
    rewrite exchanges_response_events. repeat split.
    eapply prepareRequest_ctx; eassumption.
Qed.

Lemma exchanges_cancel (evs : list event) (ctxt : context_Context) :
  exchanges (evs ++ [Ev (context_cancel ctxt) tt]) = exchanges evs.
Proof. unfold exchanges. rewrite omap_app. simpl. apply app_nil_r. Qed.

Lemma named_steps_response_events (response : http_Response) (closed : option error) :
  named_steps (response_events response closed) = [].
Proof.
  unfold response_events.
  destruct (processResponse response) as [? [?|]]; destruct closed; reflexivity.
Qed.

Lemma send_run_named_steps (ctxt : context_Context) (webhookURL : string)
    (evs : list event) (err : option error) :
  send_run ctxt webhookURL evs err ->
  named_steps evs `prefix_of`
    [step_ValidateWebhook; step_Validate; step_Prepare; step_request].
Proof.
  intros Hrun. destruct Hrun; unfold named_steps.
  - now exists [step_Validate; step_Prepare; step_request].
  - now exists [step_Prepare; step_request].
  - now exists [step_request].
  - now exists [step_request].
  - now exists [].
  - rewrite List.map_app, List.filter_app.
    fold (named_steps (response_events response closed)).
    rewrite named_steps_response_events. now exists [].
Qed.

Lemma named_steps_cancel (evs : list event) (ctxt : context_Context) :
  named_steps (evs ++ [Ev (context_cancel ctxt) tt]) = named_steps evs.
Proof.
  unfold named_steps. rewrite List.map_app, List.filter_app. simpl. apply app_nil_r.
Qed.

Lemma failed_step_response_events (response : http_Response) (closed : option error) :
  omap failed_step (response_events response closed) = [].
Proof.
  unfold response_events.
  destruct (processResponse response) as [? [?|]]; destruct closed; reflexivity.
Qed.

Lemma send_run_aborts_at_failure (ctxt : context_Context) (webhookURL : string)
    (evs : list event) (err : option error) :
  send_run ctxt webhookURL evs err -> aborts_at_failure evs err.
Proof.
  intros Hrun.
  destruct Hrun as [e|e|e|reader e Hreq|reader request c e Hreq
                   |reader request c response closed Hreq];
    unfold aborts_at_failure.
  - split; [|reflexivity]. now exists [], (Ev (client_ValidateWebhook webhookURL) (Some e)).
  - split; [|reflexivity].
    now exists [Ev (client_ValidateWebhook webhookURL) None],
               (Ev message_Validate (Some e)).
  - split; [|reflexivity].
    now exists [Ev (client_ValidateWebhook webhookURL) None; Ev message_Validate None],
               (Ev message_Prepare (Some e)).
  - exact I.
  - split; [|reflexivity].
    now exists [Ev (client_ValidateWebhook webhookURL) None; Ev message_Validate None;
                Ev message_Prepare None; Ev message_Payload reader;
                Ev client_HTTPClient c],
               (Ev (httpClient_Do c request) (inr e)).
  - rewrite omap_app, failed_step_response_events. exact I.
Qed.

(** C5. Whatever implements the client and the message, a call of [Send]
    is one of the runs of [send_run] followed by the cancelling of its
    context: the webhook URL is validated first, then the message is
    validated, then [Prepare] is called, then the request is made; at most
    one of these steps answers with an error, that step is the last call of
    the run, and the error returned wraps its answer under the format of
    that step.  The formats of the steps are pairwise different. *)
Theorem Send_steps_in_order {W : Type} (h : handler W) (webhookURL : string) (w : W) :
  let ctxt := context_WithTimeout context_Background WebhookSendTimeout in
  let '(err, _, evs) := run h (Send webhookURL) w in
  (exists evs', evs = evs' ++ [Ev (context_cancel ctxt) tt]
                /\ send_run ctxt webhookURL evs' err
                /\ aborts_at_failure evs' err)
  /\ named_steps evs `prefix_of`
       [step_ValidateWebhook; step_Validate; step_Prepare; step_request]
  /\ NoDup ["webhook URL validation failed: %w"; "failed to validate message: %w";
            "failed to prepare message: %w"; "failed to prepare request: %w";
            "failed to send message: %w"; "failed to process response: %w"].
Proof.
  intros ctxt. destruct (Send_run h webhookURL w) as (evs' & Hevs & Hrun).
  fold ctxt in Hevs, Hrun.
  destruct (run h (Send webhookURL) w) as [[err w'] evs]. simpl in Hevs, Hrun.
  subst evs. split; [|split].
  - exists evs'. split; [reflexivity|]. split; [assumption|].
    eapply send_run_aborts_at_failure; eassumption.
  - rewrite named_steps_cancel. eapply send_run_named_steps; eassumption.
  - apply (bool_decide_unpack _). vm_compute. exact I.
Qed.

(* ===================================================================== *)
(** * The sender: timeout, responses, early failures *)
(* ===================================================================== *)

Lemma Send_exchange {W : Type} (h : handler W) (webhookURL : string) (w : W)
    (c : http_Client) (request : http_Request) (outcome : http_Response + error) :
  In (c, request, outcome) (exchanges (snd (run h (Send webhookURL) w))) ->
  exchanges (snd (run h (Send webhookURL) w)) = [(c, request, outcome)]
  /\ req_ctx request = context_WithTimeout context_Background WebhookSendTimeout
  /\ fst (fst (run h (Send webhookURL) w))
     = match outcome with
       | inr e => Some (fmt_Errorf "failed to send message: %w" [arg_error e])
       | inl response => response_result response
       end.
Proof.
  destruct (Send_run h webhookURL w) as (evs' & Hevs & Hrun).
  rewrite Hevs, exchanges_cancel.
  destruct (send_run_exchanges _ _ _ _ Hrun) as [Hnone|(c' & r' & o' & Hone & Hctx & Herr)].
  - rewrite Hnone. intros [].
  - rewrite Hone. intros [[= <- <- <-]|[]]. repeat split; assumption.
Qed.

(** C8. [WebhookSendTimeout] is five seconds (5 000 000 000 ns).  A call of
    [Send] makes one context with that timeout, runs the whole of
    [sendWithContext] under it and cancels it at the end.  The run has at
    most one exchange with the network (no second attempt), the request of
    that exchange carries that context, and when the exchange ends with an
    error (as it does when the context expires or is cancelled while the
    request is in flight) or the body of the response cannot be read, [Send]
    returns an error that wraps it. *)
Theorem Send_timeout_five_seconds {W : Type} (h : handler W) (webhookURL : string)
    (w : W) :
  let ctxt := context_WithTimeout context_Background (5 * 1000000000) in
  let '(err, _, evs) := run h (Send webhookURL) w in
  WebhookSendTimeout = 5 * time_Second /\ time_Second = 1000000000 * time_Nanosecond
  /\ (exists evs', evs = evs' ++ [Ev (context_cancel ctxt) tt]
                   /\ send_run ctxt webhookURL evs' err)
  /\ (length (exchanges evs) <= 1)%nat
  /\ (forall c request outcome,
        In (c, request, outcome) (exchanges evs) ->
        req_ctx request = ctxt
        /\ match outcome with
           | inr e => err = Some (fmt_Errorf "failed to send message: %w" [arg_error e])
           | inl response =>
               forall text, body_readErr (Body response) = Some text ->
                 err = Some (fmt_Errorf "failed to process response: %w"
                               [arg_error (http_error text)])
           end).
Proof.
  intros ctxt.
  pose proof (Send_run h webhookURL w) as (evs' & Hevs & Hrun).
  pose proof (Send_exchange h webhookURL w) as Hex.
  destruct (run h (Send webhookURL) w) as [[err w'] evs]. simpl in Hevs, Hrun, Hex.
  split; [reflexivity|]. split; [reflexivity|]. split; [|split].
  - exists evs'. split; assumption.
  - subst evs. rewrite exchanges_cancel.
    destruct (send_run_exchanges _ _ _ _ Hrun) as [->|(? & ? & ? & -> & _)]; simpl; lia.
  - intros c request outcome Hin.
    destruct (Hex c request outcome Hin) as (_ & Hctx & Herr).
    split; [exact Hctx|].
    destruct outcome as [response|e]; [|exact Herr].
    intros text Hread. rewrite Herr. unfold response_result.
    rewrite (processResponse_read_failed _ _ Hread). reflexivity.
Qed.

(** C4 (amended). Whatever implements the client and the message: when the
    exchange of a [Send] ends with a response whose status code is 299 or
    more and whose body could be read, [Send] returns the endpoint error
    with the status and the whole body, wrapped as a failure to process the
    response; when the status code is below 299 the error returned, if any,
    neither is nor wraps an endpoint error; and when the body could not be
    read, [Send] returns the error of the reading, wrapped as a failure to
    process the response, whatever the status code: an error that neither
    is nor wraps an endpoint error. *)
Theorem Send_endpoint_error {W : Type} (h : handler W) (webhookURL : string) (w : W) :
  let '(err, _, evs) := run h (Send webhookURL) w in
  forall c request response,
    In (c, request, inl response) (exchanges evs) ->
    (299 <= StatusCode response -> body_readErr (Body response) = None ->
     err = Some (fmt_Errorf "failed to process response: %w"
                   [arg_error (endpoint_error (Status response)
                                 (body_data (Body response)))]))
    /\ (StatusCode response < 299 ->
        forall e status body,
          err = Some e -> ~ errors_Is e (endpoint_error status body))
    /\ (forall text,
          body_readErr (Body response) = Some text ->
          err = Some (fmt_Errorf "failed to process response: %w"
                        [arg_error (http_error text)])
          /\ forall e status body,
               err = Some e -> ~ errors_Is e (endpoint_error status body)).
Proof.
  pose proof (Send_exchange h webhookURL w) as Hex.
  destruct (run h (Send webhookURL) w) as [[err w'] evs]. simpl in Hex.
  intros c request response Hin.
  destruct (Hex c request (inl response) Hin) as (_ & _ & Herr). subst err.
  unfold response_result. split; [|split].
  - intros Hs Hread. rewrite (processResponse_status _ Hread Hs). reflexivity.
  - intros Hs e status body He.
    destruct (body_readErr (Body response)) as [text|] eqn:Hread.
    + rewrite (processResponse_read_failed _ _ Hread) in He. injection He as <-.
      unfold errors_Is, endpoint_error, http_error. simpl. intuition discriminate.
    + destruct (decide (body_data (Body response) = "1")) as [Hb|Hb].
      * rewrite (processResponse_ok _ Hread Hs Hb) in He. discriminate.
      * rewrite (processResponse_text _ Hread Hs Hb) in He. injection He as <-.
        unfold errors_Is, endpoint_error, response_text_error, ErrInvalidResponseText.
        simpl. intuition discriminate.
  - intros text Hread. rewrite (processResponse_read_failed _ _ Hread).
    split; [reflexivity|]. intros e status body [= <-].
    unfold errors_Is, endpoint_error, http_error. simpl. intuition discriminate.
Qed.

(** C1 is what the code misses.  The endpoint answers status 200 with the
    body [1] followed by a newline.  Trimmed, the body is the expected text,
    yet [processResponse] and [Send] fail with the error for an unexpected
    body: [strings.TrimSpace] is applied to the constant and not to the
    body. *)
Theorem Send_rejects_token_with_newline :
  let body := "1" +:+ str1 ch_nl in
  let response := response_of 200 "200 OK" body in
  strings_TrimSpace body = ExpectedEndpointResponseText
  /\ processResponse response = (EmptyString, Some (response_text_error body))
  /\ fst (fst (TeamsClient_Send (CreateTeamsClient (endpoint response))
                 "https://contoso.webhook.office.com/webhookb2/a1b2"
                 (card_with "Build" "passed" EmptyString None) ∅))
     = Some (fmt_Errorf "failed to process response: %w"
               [arg_error (response_text_error body)]).
Proof. vm_compute. repeat split. Qed.

(** One call of a run of the package's own client and card. *)
Ltac run_step :=
  cbn [run bind implementation w_message w_heap MessageSender_ValidateWebhook
       TeamsClient_MessageSender messageValidator_Validate
       teamsMessage_messageValidator MessageCard_teamsMessage
       MessageCard_messageValidator].

(** C10. When the webhook URL or the message is not valid, [Send] returns
    the error of that validation, wrapped, without a call of [Prepare]: the
    card with all its fields and every buffer are as before the call. *)
Theorem Send_invalid_leaves_card (client : TeamsClient) (webhookURL : string)
    (card : MessageCard) (h : heap) :
  ValidateWebhook client webhookURL <> None \/ Validate card <> None ->
  let '(err, w, evs) := TeamsClient_Send client webhookURL card h in
  w_message w = card /\ w_heap w = h
  /\ ~ In step_Prepare (List.map step_of evs)
  /\ err = match ValidateWebhook client webhookURL with
           | Some e => Some (fmt_Errorf "webhook URL validation failed: %w" [arg_error e])
           | None =>
               (fun e => fmt_Errorf "failed to validate message: %w" [arg_error e])
                 <$> Validate card
           end.
Proof.
  intros Hinvalid. unfold TeamsClient_Send, Send, sendWithContext, call_.
  destruct (ValidateWebhook client webhookURL) as [e|] eqn:Hurl.
  - run_step. rewrite Hurl. cbn.
    split; [reflexivity|]. split; [reflexivity|]. split; [|reflexivity].
    intros [H|[H|[]]]; discriminate.
  - destruct (Validate card) as [e|] eqn:Hcard.
    + run_step. rewrite Hurl. run_step. rewrite Hcard. cbn.
      split; [reflexivity|]. split; [reflexivity|]. split; [|reflexivity].
      intros [H|[H|[H|[]]]]; discriminate.
    + destruct Hinvalid as [H|H]; now contradict H.
Qed.

Lemma Send_invalid_leaves_card_witness :
  let client := CreateTeamsClient (endpoint (response_of 200 "200 OK" "1")) in
  let h : heap := {[ 1%positive := {| unread := "earlier payload" |} ]} in
  let card := card_with "Build" "passed" EmptyString (Some 1%positive) in
  let untitled := card_with EmptyString "passed" EmptyString (Some 1%positive) in
  let bad_url := TeamsClient_Send client "https://example.org/webhook" card h in
  let bad_card :=
    TeamsClient_Send client "https://contoso.webhook.office.com/webhookb2/a1b2"
      untitled h in
  (w_message (snd (fst bad_url)) = card /\ w_heap (snd (fst bad_url)) = h)
  /\ (w_message (snd (fst bad_card)) = untitled /\ w_heap (snd (fst bad_card)) = h).
Proof.
  intros client h card untitled bad_url bad_card. split.
  - assert (ValidateWebhook client "https://example.org/webhook" <> None
            \/ Validate card <> None) as Hinvalid.
    { left. vm_compute. discriminate. }
    pose proof (Send_invalid_leaves_card client "https://example.org/webhook" card h
                  Hinvalid) as Hsame.
    fold bad_url in Hsame. destruct bad_url as [[err w] evs].
    destruct Hsame as (Hcard & Hheap & _). split; assumption.
  - assert (ValidateWebhook client "https://contoso.webhook.office.com/webhookb2/a1b2"
            <> None \/ Validate untitled <> None) as Hinvalid.
    { right. vm_compute. discriminate. }
    pose proof (Send_invalid_leaves_card client
                  "https://contoso.webhook.office.com/webhookb2/a1b2" untitled h
                  Hinvalid) as Hsame.
    fold bad_card in Hsame. destruct bad_card as [[err w] evs].
    destruct Hsame as (Hcard & Hheap & _). split; assumption.
Defined.

Lemma Send_timeout_five_seconds_witness :
  let webhookURL := "https://contoso.webhook.office.com/webhookb2/a1b2" in
  let card := card_with "Build" "passed" EmptyString None in
  let late :=
    {| Status := "200 OK"; StatusCode := 200;
       Body := {| body_data := EmptyString;
                  body_readErr := Some "context deadline exceeded";
                  body_closeErr := None |} |} in
  fst (fst (TeamsClient_Send (CreateTeamsClient (no_answer "context deadline exceeded"))
              webhookURL card ∅))
  = Some (fmt_Errorf "failed to send message: %w"
            [arg_error (http_error "context deadline exceeded")])
  /\ fst (fst (TeamsClient_Send (CreateTeamsClient (endpoint late)) webhookURL card ∅))
     = Some (fmt_Errorf "failed to process response: %w"
               [arg_error (http_error "context deadline exceeded")]).
Proof.
  intros webhookURL card late. unfold TeamsClient_Send. split.
  - pose proof (Send_timeout_five_seconds
                  (implementation
                     (CreateTeamsClient (no_answer "context deadline exceeded")))
                  webhookURL {| w_message := card; w_heap := ∅ |}) as Htimeout.
    cbv zeta in Htimeout.
    destruct (run _ _ _) as [[err w] evs] eqn:Hrun.
    destruct Htimeout as (_ & _ & _ & _ & Hexchange).
    vm_compute in Hrun. injection Hrun as <- <- <-.
    destruct (Hexchange _ _ _ (or_introl eq_refl)) as [_ Herr].
    exact Herr.
  - pose proof (Send_timeout_five_seconds
                  (implementation (CreateTeamsClient (endpoint late)))
                  webhookURL {| w_message := card; w_heap := ∅ |}) as Htimeout.
    cbv zeta in Htimeout.
    destruct (run _ _ _) as [[err w] evs] eqn:Hrun.
    destruct Htimeout as (_ & _ & _ & _ & Hexchange).
    vm_compute in Hrun. injection Hrun as <- <- <-.
    destruct (Hexchange _ _ _ (or_introl eq_refl)) as [_ Herr].
    apply Herr. reflexivity.
Defined.

Lemma Send_endpoint_error_witness :
  let webhookURL := "https://contoso.webhook.office.com/webhookb2/a1b2" in
  let card := card_with "Build" "passed" EmptyString None in
  fst (fst (TeamsClient_Send
              (CreateTeamsClient (endpoint (response_of 400 "400 Bad Request" "Bad payload")))
              webhookURL card ∅))
  = Some (fmt_Errorf "failed to process response: %w"
            [arg_error (endpoint_error "400 Bad Request" "Bad payload")])
  /\ (forall e,
        fst (fst (TeamsClient_Send
                    (CreateTeamsClient (endpoint (response_of 200 "200 OK" "0")))
                    webhookURL card ∅)) = Some e ->
        ~ errors_Is e (endpoint_error "200 OK" "0"))
  /\ fst (fst (TeamsClient_Send
                 (CreateTeamsClient
                    (endpoint
                       {| Status := "502 Bad Gateway"; StatusCode := 502;
                          Body := {| body_data := "Bad"; body_readErr := Some "unexpected EOF";
                                     body_closeErr := None |} |}))
                 webhookURL card ∅))
     = Some (fmt_Errorf "failed to process response: %w"
               [arg_error (http_error "unexpected EOF")]).
Proof.
  intros webhookURL card. unfold TeamsClient_Send. split; [|split].
  - pose proof (Send_endpoint_error
                  (implementation
                     (CreateTeamsClient
                        (endpoint (response_of 400 "400 Bad Request" "Bad payload"))))
                  webhookURL {| w_message := card; w_heap := ∅ |}) as Hendpoint.
    destruct (run _ _ _) as [[err w] evs] eqn:Hrun.
    vm_compute in Hrun. injection Hrun as <- <- <-.
    destruct (Hendpoint _ _ _ (or_introl eq_refl)) as (Herr & _ & _).
    apply Herr; [vm_compute; discriminate | reflexivity].
  - pose proof (Send_endpoint_error
                  (implementation
                     (CreateTeamsClient (endpoint (response_of 200 "200 OK" "0"))))
                  webhookURL {| w_message := card; w_heap := ∅ |}) as Hendpoint.
    destruct (run _ _ _) as [[err w] evs] eqn:Hrun.
    vm_compute in Hrun. injection Hrun as <- <- <-.
    destruct (Hendpoint _ _ _ (or_introl eq_refl)) as (_ & Hnot & _).
    intros e He. apply (Hnot eq_refl e "200 OK" "0" He).
  - pose proof (Send_endpoint_error
                  (implementation
                     (CreateTeamsClient
                        (endpoint
                           {| Status := "502 Bad Gateway"; StatusCode := 502;
                              Body := {| body_data := "Bad";
                                         body_readErr := Some "unexpected EOF";
                                         body_closeErr := None |} |})))
                  webhookURL {| w_message := card; w_heap := ∅ |}) as Hendpoint.
    destruct (run _ _ _) as [[err w] evs] eqn:Hrun.
    vm_compute in Hrun. injection Hrun as <- <- <-.
    destruct (Hendpoint _ _ _ (or_introl eq_refl)) as (_ & _ & Hread).
    exact (proj1 (Hread "unexpected EOF" eq_refl)).
Defined.

(** C4 as stated fails: the endpoint answers status 500 with a body that
    breaks off while it is read.  [processResponse] returns the error of
    the reading before it looks at the status code, so [Send] fails with
    an error that has neither the status nor any text of the body and that
    neither is nor wraps an endpoint error. *)
Lemma Send_unreadable_body_no_endpoint_error :
  let response :=
    {| Status := "500 Internal Server Error"; StatusCode := 500;
       Body := {| body_data := "Internal"; body_readErr := Some "unexpected EOF";
                  body_closeErr := None |} |} in
  let err :=
    fst (fst (TeamsClient_Send (CreateTeamsClient (endpoint response))
                "https://contoso.webhook.office.com/webhookb2/a1b2"
                (card_with "Build" "passed" EmptyString None) ∅)) in
  299 <= StatusCode response
  /\ processResponse response = (EmptyString, Some (http_error "unexpected EOF"))
  /\ err = Some (fmt_Errorf "failed to process response: %w"
                   [arg_error (http_error "unexpected EOF")])
  /\ forall e status body, err = Some e -> ~ errors_Is e (endpoint_error status body).
Proof.
  cbv zeta. split; [vm_compute; discriminate|]. split; [reflexivity|].
  assert (fst (fst (TeamsClient_Send
                      (CreateTeamsClient
                         (endpoint
                            {| Status := "500 Internal Server Error"; StatusCode := 500;
                               Body := {| body_data := "Internal";
                                          body_readErr := Some "unexpected EOF";
                                          body_closeErr := None |} |}))
                      "https://contoso.webhook.office.com/webhookb2/a1b2"
                      (card_with "Build" "passed" EmptyString None) ∅))
          = Some (fmt_Errorf "failed to process response: %w"
                    [arg_error (http_error "unexpected EOF")])) as ->
    by (vm_compute; reflexivity).
  split; [reflexivity|]. intros e status body [= <-].
  unfold errors_Is, endpoint_error, http_error. simpl. intuition discriminate.
Qed.

(* ===================================================================== *)
(** * regexp: the matcher and the language *)
(* ===================================================================== *)

Lemma append_eq_empty (a b : string) :
  a +:+ b = EmptyString -> a = EmptyString /\ b = EmptyString.
Proof. destruct a; simpl; [tauto | discriminate]. Qed.

Lemma re_nullable_matches (b : bool) (r : regex) :
  re_nullable b r = true -> re_matches b r EmptyString.
Proof.
  induction r as [| | |c| |r1 IH1 r2 IH2|r1 IH1 r2 IH2|r IH]; simpl; intros H;
    try discriminate.
  - constructor.
  - subst b. constructor.
  - apply andb_true_iff in H as [H1 H2].
    change EmptyString with (EmptyString +:+ EmptyString).
    constructor; [auto|]. simpl. rewrite andb_true_r. auto.
  - apply orb_true_iff in H as [H|H]; [apply m_alt_l | apply m_alt_r]; auto.
  - constructor.
Qed.

Lemma re_matches_nullable (b : bool) (r : regex) (s : string) :
  re_matches b r s -> s = EmptyString -> re_nullable b r = true.
Proof.
  induction 1 as [b| |b c|b c Hc|b r1 r2 s1 s2 H1 IH1 H2 IH2|b r1 r2 s H IH
                 |b r1 r2 s H IH|b r|b r c s1 s2 H1 IH1 H2 IH2];
    simpl; intros Hs; try reflexivity; try discriminate.
  - apply append_eq_empty in Hs as [-> ->]. simpl in IH2.
    rewrite andb_true_r in IH2. rewrite IH1, IH2; reflexivity.
  - rewrite IH; auto.
  - rewrite IH; auto using orb_true_r.
Qed.

Lemma re_nullable_iff (b : bool) (r : regex) :
  re_nullable b r = true <-> re_matches b r EmptyString.
Proof.
  split; [apply re_nullable_matches | intros H; eapply re_matches_nullable; eauto].
Qed.

Lemma re_deriv_sound (b : bool) (c : ascii) (r : regex) (s : string) :
  re_matches false (re_deriv b c r) s -> re_matches b r (String c s).
Proof.
  revert s. induction r as [| | |d| |r1 IH1 r2 IH2|r1 IH1 r2 IH2|r IH];
    simpl; intros s H.
  - inversion H.
  - inversion H.
  - inversion H.
  - case_bool_decide; inversion H; subst. apply (m_lit b d).
  - case_bool_decide; inversion H; subst. now apply (m_dot b c).
  - inversion H as [| | | | |? ? ? ? Hl|? ? ? ? Hr| |]; subst.
    + inversion Hl as [| | | |? ? ? s1 s2 Hd H2| | | |]; subst.
      change (String c (s1 +:+ s2)) with (String c s1 +:+ s2).
      constructor; [auto|]. simpl. rewrite andb_false_r. exact H2.
    + destruct (re_nullable b r1) eqn:Hn; [|inversion Hr].
      change (String c s) with (EmptyString +:+ String c s).
      constructor; [now apply re_nullable_matches|].
      simpl. rewrite andb_true_r. auto.
  - inversion H; subst; [apply m_alt_l | apply m_alt_r]; auto.
  - inversion H as [| | | |? ? ? s1 s2 Hd H2| | | |]; subst.
    change (String c (s1 +:+ s2)) with (String c s1 +:+ s2).
    constructor; auto.
Qed.

Lemma re_deriv_complete (b : bool) (r : regex) (s' : string) :
  re_matches b r s' ->
  forall (c : ascii) (s : string), s' = String c s ->
    re_matches false (re_deriv b c r) s.
Proof.
  induction 1 as [b| |b d|b d Hd|b r1 r2 s1 s2 H1 IH1 H2 IH2|b r1 r2 s0 H IH
                 |b r1 r2 s0 H IH|b r|b r d s1 s2 H1 IH1 H2 IH2];
    intros c s Hs; simpl; try discriminate.
  - injection Hs as <- <-. rewrite bool_decide_eq_true_2 by reflexivity. constructor.
  - injection Hs as <- <-. rewrite bool_decide_eq_false_2 by assumption. constructor.
  - destruct s1 as [|x s1]; simpl in Hs.
    + subst s2. simpl in IH2. rewrite andb_true_r in IH2.
      apply m_alt_r. rewrite (re_matches_nullable _ _ _ H1) by reflexivity.
      now apply IH2.
    + injection Hs as <- <-. apply m_alt_l.
      apply (m_cat false); [now apply IH1|].
      simpl in H2. rewrite andb_false_r in H2. exact H2.
  - apply m_alt_l. now apply IH.
  - apply m_alt_r. now apply IH.
  - simpl in Hs. injection Hs as <- <-.
    apply (m_cat false); [now apply IH1 | exact H2].
Qed.

Lemma re_deriv_iff (b : bool) (c : ascii) (r : regex) (s : string) :
  re_matches false (re_deriv b c r) s <-> re_matches b r (String c s).
Proof.
  split; [apply re_deriv_sound | intros H; eapply re_deriv_complete; eauto].
Qed.

(** The matcher answers whether a beginning of the text is in the language. *)
Lemma re_match_prefix_iff (b : bool) (r : regex) (s : string) :
  re_match_prefix b r s = true
  <-> exists p q : string, s = p +:+ q /\ re_matches b r p.
Proof.
  revert b r. induction s as [|c s IH]; intros b r; simpl.
  - rewrite orb_false_r, re_nullable_iff. split.
    + intros H. now exists EmptyString, EmptyString.
    + intros (p & q & Hs & H). symmetry in Hs.
      apply append_eq_empty in Hs as [-> _]. exact H.
  - rewrite orb_true_iff, re_nullable_iff, IH. split.
    + intros [H|(p & q & -> & H)].
      * now exists EmptyString, (String c s).
      * exists (String c p), q. split; [reflexivity | now apply re_deriv_iff].
    + intros (p & q & Hs & H). destruct p as [|x p]; simpl in Hs.
      * now left.
      * injection Hs as <- ->. right. exists p, q.
        split; [reflexivity | now apply re_deriv_iff].
Qed.

Lemma re_match_anywhere_eq (b : bool) (r : regex) (s : string) :
  re_match_anywhere b r s
  = re_match_prefix b r s
    || match s with
       | EmptyString => false
       | String _ t => re_match_anywhere false r t
       end.
Proof. destruct s; reflexivity. Qed.

Lemma re_match_anywhere_iff (b : bool) (r : regex) (s : string) :
  re_match_anywhere b r s = true
  <-> exists pre p q : string,
        s = pre +:+ p +:+ q /\ re_matches (b && is_empty pre) r p.
Proof.
  revert b. induction s as [|c s IH]; intros b; rewrite re_match_anywhere_eq.
  - rewrite orb_false_r, re_match_prefix_iff. split.
    + intros (p & q & Hs & H). exists EmptyString, p, q. simpl.
      rewrite andb_true_r. now split.
    + intros (pre & p & q & Hs & H). symmetry in Hs.
      apply append_eq_empty in Hs as [-> Hs].
      simpl in H. rewrite andb_true_r in H. exists p, q. now split.
  - rewrite orb_true_iff, re_match_prefix_iff, IH. split.
    + intros [(p & q & Hs & H)|(pre & p & q & -> & H)].
      * exists EmptyString, p, q. simpl. rewrite andb_true_r. now split.
      * exists (String c pre), p, q. simpl. rewrite andb_false_r.
        simpl in H. now split.
    + intros (pre & p & q & Hs & H). destruct pre as [|x pre]; simpl in Hs, H.
      * left. rewrite andb_true_r in H. now exists p, q.
      * injection Hs as <- ->. right. rewrite andb_false_r in H.
        now exists pre, p, q.
Qed.

(** ** The language, constructor by constructor *)

Lemma re_matches_eps_iff (b : bool) (s : string) :
  re_matches b re_eps s <-> s = EmptyString.
Proof. split; [inversion 1; reflexivity | intros ->; constructor]. Qed.

Lemma re_matches_begin_iff (b : bool) (s : string) :
  re_matches b re_begin s <-> b = true /\ s = EmptyString.
Proof. split; [inversion 1; now split | intros [-> ->]; constructor]. Qed.

Lemma re_matches_lit_iff (b : bool) (c : ascii) (s : string) :
  re_matches b (re_lit c) s <-> s = str1 c.
Proof. split; [inversion 1; reflexivity | intros ->; constructor]. Qed.

Lemma re_matches_cat_iff (b : bool) (r1 r2 : regex) (s : string) :
  re_matches b (re_cat r1 r2) s
  <-> exists s1 s2 : string,
        s = s1 +:+ s2 /\ re_matches b r1 s1 /\ re_matches (b && is_empty s1) r2 s2.
Proof.
  split.
  - inversion 1; subst. eauto.
  - intros (s1 & s2 & -> & H1 & H2). now constructor.
Qed.

Lemma re_matches_alt_iff (b : bool) (r1 r2 : regex) (s : string) :
  re_matches b (re_alt r1 r2) s <-> re_matches b r1 s \/ re_matches b r2 s.
Proof.
  split.
  - inversion 1; subst; auto.
  - intros [H|H]; [now apply m_alt_l | now apply m_alt_r].
Qed.

Lemma re_matches_lits_iff (w : string) (r : regex) (b : bool) (s : string) :
  re_matches b (re_lits w r) s
  <-> exists t : string, s = w +:+ t /\ re_matches (b && is_empty w) r t.
Proof.
  revert b s. induction w as [|c w IH]; intros b s; simpl.
  - rewrite andb_true_r. split; [eauto | now intros (t & -> & H)].
  - rewrite andb_false_r, re_matches_cat_iff. split.
    + intros (s1 & s2 & -> & H1 & H2). apply re_matches_lit_iff in H1 as ->.
      simpl in H2. rewrite andb_false_r in H2. apply IH in H2 as (t & -> & H2).
      exists t. now split.
    + intros (t & -> & H). exists (str1 c), (w +:+ t). split; [reflexivity|].
      split; [constructor|]. simpl. rewrite andb_false_r. apply IH. eauto.
Qed.

Lemma no_newline_cons (c : ascii) (s : string) :
  no_newline (String c s) = negb (bool_decide (c = ch_nl)) && no_newline s.
Proof. reflexivity. Qed.

Lemma re_matches_star_dot (b : bool) (r : regex) (s : string) :
  re_matches b r s -> r = re_star re_dot -> no_newline s = true.
Proof.
  induction 1 as [| | | | | | |b r|b r c s1 s2 H1 _ H2 IH2]; intros Hr;
    try discriminate; [reflexivity|].
  injection Hr as ->. inversion H1 as [| | |? ? Hc| | | | |]; subst.
  change (String c EmptyString +:+ s2) with (String c s2).
  rewrite no_newline_cons, bool_decide_eq_false_2 by assumption. now apply IH2.
Qed.

Lemma re_matches_star_dot_iff (b : bool) (s : string) :
  re_matches b (re_star re_dot) s <-> no_newline s = true.
Proof.
  split; [intros H; eapply re_matches_star_dot; eauto|].
  revert b. induction s as [|c s IH]; intros b; [constructor|].
  rewrite no_newline_cons. intros H. apply andb_true_iff in H as [Hc Hs].
  change (String c s) with (String c EmptyString +:+ s).
  constructor; [|now apply IH].
  apply (m_dot b c). apply negb_true_iff, bool_decide_eq_false in Hc. exact Hc.
Qed.

(** ** The pattern of the package *)

Lemma Compile_WebhookURLValidPattern :
  regexp_Compile WebhookURLValidPattern = inl webhook_re.
Proof. reflexivity. Qed.

(** The strings the pattern matches from the beginning of the text. *)
Lemma webhook_re_matches (p : string) :
  re_matches true webhook_re p
  <-> exists sub digits : string,
        p = "https://" +:+ sub +:+ ".office" +:+ digits +:+ ".com"
        /\ (sub = "outlook" \/ exists x, sub = x +:+ ".webhook" /\ no_newline x = true)
        /\ (digits = "365" \/ digits = EmptyString).
Proof.
  unfold webhook_re. split.
  - intros H.
    apply re_matches_cat_iff in H as (s0 & p1 & -> & H0 & H).
    apply re_matches_begin_iff in H0 as [_ ->]. cbn [andb is_empty] in H.
    apply re_matches_lits_iff in H as (p2 & -> & H). cbn [andb is_empty] in H.
    apply re_matches_cat_iff in H as (sub & p3 & -> & Hsub & H). cbn [andb is_empty] in H.
    apply re_matches_lits_iff in H as (p4 & -> & H). cbn [andb is_empty] in H.
    apply re_matches_cat_iff in H as (digits & p5 & -> & Hdigits & H). cbn [andb is_empty] in H.
    apply re_matches_lits_iff in H as (p6 & -> & H). cbn [andb is_empty] in H.
    apply re_matches_lit_iff in H as ->.
    exists sub, digits. split; [reflexivity|]. split.
    + apply re_matches_alt_iff in Hsub as [Hsub|Hsub].
      * right. apply re_matches_cat_iff in Hsub as (x & y & -> & Hx & Hy).
        cbn [andb is_empty] in Hy. apply re_matches_lits_iff in Hy as (z & -> & Hz). cbn [andb is_empty] in Hz.
        apply re_matches_lit_iff in Hz as ->.
        exists x. split; [reflexivity|]. now apply re_matches_star_dot_iff in Hx.
      * left. apply re_matches_lits_iff in Hsub as (z & -> & Hz). cbn [andb is_empty] in Hz.
        now apply re_matches_lit_iff in Hz as ->.
    + apply re_matches_alt_iff in Hdigits as [Hd|Hd].
      * left. apply re_matches_lits_iff in Hd as (z & -> & Hz). cbn [andb is_empty] in Hz.
        now apply re_matches_lit_iff in Hz as ->.
      * right. now apply re_matches_eps_iff in Hd.
  - intros (sub & digits & -> & Hsub & Hdigits).
    apply re_matches_cat_iff. exists EmptyString, ("https://" +:+ sub +:+ ".office" +:+ digits +:+ ".com").
    split; [reflexivity|]. split; [constructor|]. cbn [andb is_empty].
    apply (re_matches_lits_iff "https://"). eexists. split; [reflexivity|]. cbn [andb is_empty].
    apply re_matches_cat_iff. exists sub, (".office" +:+ digits +:+ ".com").
    split; [reflexivity|]. split.
    + apply re_matches_alt_iff. destruct Hsub as [->|(x & -> & Hx)].
      * right. apply (re_matches_lits_iff "outloo"). exists "k".
        split; [reflexivity | constructor].
      * left. apply re_matches_cat_iff. exists x, ".webhook".
        split; [reflexivity|]. split; [now apply re_matches_star_dot_iff|].
        cbn [andb is_empty]. apply (re_matches_lits_iff ".webhoo"). exists "k".
        split; [reflexivity | constructor].
    + cbn [andb is_empty]. apply (re_matches_lits_iff ".office"). eexists.
      split; [reflexivity|]. cbn [andb is_empty]. apply re_matches_cat_iff. exists digits, ".com".
      split; [reflexivity|]. split.
      * apply re_matches_alt_iff. destruct Hdigits as [->| ->].
        -- left. apply (re_matches_lits_iff "36"). exists "5".
           split; [reflexivity | constructor].
        -- right. constructor.
      * cbn [andb is_empty]. apply (re_matches_lits_iff ".co"). exists "m".
        split; [reflexivity | constructor].
Qed.

(** [regexp.MatchString] with the pattern of the package: no error, and a
    match exactly for the texts that begin as [webhook_prefix] says. *)
Lemma MatchString_WebhookURLValidPattern (s : string) :
  snd (regexp_MatchString WebhookURLValidPattern s) = None
  /\ (fst (regexp_MatchString WebhookURLValidPattern s) = true <-> webhook_prefix s).
Proof.
  unfold regexp_MatchString. rewrite Compile_WebhookURLValidPattern. simpl.
  split; [reflexivity|]. rewrite re_match_anywhere_iff. unfold webhook_prefix. split.
  - intros (pre & p & q & -> & H). destruct pre; simpl in H.
    + apply webhook_re_matches in H as (sub & digits & -> & Hsub & Hdigits).
      exists sub, digits, q. split; [|now split].
      simpl. repeat (rewrite !append_assoc_str; simpl). reflexivity.
    + unfold webhook_re in H. apply re_matches_cat_iff in H as (? & ? & _ & H & _).
      apply re_matches_begin_iff in H as [H _]. discriminate.
  - intros (sub & digits & rest & -> & Hsub & Hdigits).
    exists EmptyString, ("https://" +:+ sub +:+ ".office" +:+ digits +:+ ".com"), rest.
    split.
    + simpl. repeat (rewrite !append_assoc_str; simpl). reflexivity.
    + simpl. apply webhook_re_matches. exists sub, digits. now split.
Qed.

(* ===================================================================== *)
(** * The sender: validation of the webhook URL *)
(* ===================================================================== *)

Lemma ValidateWebhook_parsed (client : TeamsClient) (webhookURL : string)
    (urlLink : url_URL) :
  url_Parse webhookURL = inl urlLink ->
  ValidateWebhook client webhookURL
  = if fst (regexp_MatchString WebhookURLValidPattern webhookURL) then None
    else Some (fmt_Errorf "%w; got: %q"
                 [arg_error ErrWebHookURLPattern; arg_URL_String urlLink]).
Proof.
  intros Hparse. unfold ValidateWebhook. rewrite Hparse.
  unfold ValidateWebhook_patterns.
  destruct (MatchString_WebhookURLValidPattern webhookURL) as [Herr _].
  destruct (regexp_MatchString WebhookURLValidPattern webhookURL) as [m err].
  simpl in Herr |- *. subst err. reflexivity.
Qed.

Lemma ValidateWebhook_unparsed (client : TeamsClient) (webhookURL : string)
    (err : error) :
  url_Parse webhookURL = inr err ->
  ValidateWebhook client webhookURL
  = Some (fmt_Errorf "could not parse webhook URL %q: %w"
            [arg_string webhookURL; arg_error err]).
Proof. intros Hparse. unfold ValidateWebhook. rewrite Hparse. reflexivity. Qed.

Lemma ValidateWebhook_iff (client : TeamsClient) (webhookURL : string) :
  ValidateWebhook client webhookURL = None
  <-> (exists u, url_Parse webhookURL = inl u) /\ webhook_prefix webhookURL.
Proof.
  destruct (MatchString_WebhookURLValidPattern webhookURL) as [_ Hmatch].
  destruct (url_Parse webhookURL) as [u|err] eqn:Hparse.
  - rewrite (ValidateWebhook_parsed _ _ _ Hparse).
    destruct (fst (regexp_MatchString WebhookURLValidPattern webhookURL)).
    + split; [intros _|reflexivity]. split; [eauto | now apply Hmatch].
    + split; [discriminate|]. intros [_ Hp]. apply Hmatch in Hp. discriminate.
  - rewrite (ValidateWebhook_unparsed _ _ _ Hparse).
    split; [discriminate|]. intros [[u Hu] _]. discriminate.
Qed.

Lemma webhook_prefix_foo (rest : string) :
  webhook_prefix ("https://foo.webhook.office.com/" +:+ rest).
Proof.
  exists "foo.webhook", EmptyString, ("/" +:+ rest). split; [reflexivity|].
  split; [right; exists "foo"; now split | now right].
Qed.

Lemma webhook_prefix_outlook (rest : string) :
  webhook_prefix ("https://outlook.office365.com/" +:+ rest).
Proof.
  exists "outlook", "365", ("/" +:+ rest). split; [reflexivity|].
  split; now left.
Qed.

(** C2 (amended). [ValidateWebhook] succeeds exactly when the text parses
    as a URL and begins as the pattern says: [https://], then either
    anything without a newline followed by [.webhook], or [outlook], then
    [.office], then [365] or nothing, then [.com], whatever comes after.
    The pattern is matched against the text, not against the host of the
    parsed URL.  It accepts [https://foo.webhook.office.com/...] and
    [https://outlook.office365.com/...] whenever the text parses; it rejects
    [http://foo.webhook.office.com], [https://evil.com/webhook] and every
    text that does not parse, the last with the error of the parser. *)
Theorem ValidateWebhook_accepts (client : TeamsClient) :
  (forall webhookURL : string,
     ValidateWebhook client webhookURL = None
     <-> (exists u, url_Parse webhookURL = inl u) /\ webhook_prefix webhookURL)
  /\ (forall rest u,
        url_Parse ("https://foo.webhook.office.com/" +:+ rest) = inl u ->
        ValidateWebhook client ("https://foo.webhook.office.com/" +:+ rest) = None)
  /\ (forall rest u,
        url_Parse ("https://outlook.office365.com/" +:+ rest) = inl u ->
        ValidateWebhook client ("https://outlook.office365.com/" +:+ rest) = None)
  /\ ValidateWebhook client "https://foo.webhook.office.com/webhookb2/a1b2" = None
  /\ ValidateWebhook client "https://outlook.office365.com/webhook/a1b2" = None
  /\ ValidateWebhook client "http://foo.webhook.office.com" <> None
  /\ ValidateWebhook client "https://evil.com/webhook" <> None
  /\ (forall (webhookURL : string) (err : error),
        url_Parse webhookURL = inr err ->
        ValidateWebhook client webhookURL
        = Some (fmt_Errorf "could not parse webhook URL %q: %w"
                  [arg_string webhookURL; arg_error err])).
Proof.
  split; [apply ValidateWebhook_iff|].
  split.
  { intros rest u Hu. apply ValidateWebhook_iff.
    split; [eauto | apply webhook_prefix_foo]. }
  split.
  { intros rest u Hu. apply ValidateWebhook_iff.
    split; [eauto | apply webhook_prefix_outlook]. }
  split; [vm_compute; reflexivity|]. split; [vm_compute; reflexivity|].
  split; [vm_compute; discriminate|]. split; [vm_compute; discriminate|].
  apply ValidateWebhook_unparsed.
Qed.

Lemma ValidateWebhook_accepts_witness :
  let client := CreateTeamsClient (no_answer "unreachable") in
  ValidateWebhook client "https://foo.webhook.office.com/webhookb2/a1b2@c3d4/IncomingWebhook/e5f6"
  = None
  /\ ValidateWebhook client "https://outlook.office365.com/webhook/a1b2" = None
  /\ ValidateWebhook client "https://foo.webhook.office.com/%zz"
     = Some (fmt_Errorf "could not parse webhook URL %q: %w"
               [arg_string "https://foo.webhook.office.com/%zz";
                arg_error (url_error "invalid URL escape %zz")]).
Proof.
  intros client.
  destruct (ValidateWebhook_accepts client)
    as (_ & Hfoo & Houtlook & _ & _ & _ & _ & Hunparsed).
  split; [|split].
  - eapply (Hfoo "webhookb2/a1b2@c3d4/IncomingWebhook/e5f6"). vm_compute. reflexivity.
  - eapply (Houtlook "webhook/a1b2"). vm_compute. reflexivity.
  - apply Hunparsed. reflexivity.
Defined.

(** C2 as stated fails: the host of this URL is
    [outlook.office.com.evil.example], none of the hosts the specification
    names, and [ValidateWebhook] accepts the URL. *)
Lemma ValidateWebhook_not_by_host :
  let webhookURL := "https://outlook.office.com.evil.example/hook" in
  ValidateWebhook (CreateTeamsClient (no_answer "unreachable")) webhookURL = None
  /\ (exists u, url_Parse webhookURL = inl u
                /\ Host u = "outlook.office.com.evil.example")
  /\ ~ office_webhook_url webhookURL.
Proof.
  cbv zeta. split; [vm_compute; reflexivity|]. split.
  - eexists. split; [vm_compute; reflexivity | reflexivity].
  - intros (u & Hu & _ & Hhost). vm_compute in Hu. injection Hu as <-.
    vm_compute in Hhost. discriminate.
Qed.

(** The other way round: the scheme of a parsed URL is in lower case, so
    this URL has scheme [https] and a host the specification names, and
    [ValidateWebhook] rejects it, because the pattern reads the text. *)
Lemma ValidateWebhook_upper_case_scheme :
  let webhookURL := "HTTPS://foo.webhook.office.com/webhookb2/a1b2" in
  office_webhook_url webhookURL
  /\ ValidateWebhook (CreateTeamsClient (no_answer "unreachable")) webhookURL <> None.
Proof.
  cbv zeta. split.
  - eexists. split; [vm_compute; reflexivity|]. split; vm_compute; reflexivity.
  - vm_compute. discriminate.
Qed.

(* ===================================================================== *)
(** * More on the runs of Send, for any client and message *)
(* ===================================================================== *)

Lemma prepareRequest_inl (ctxt : context_Context) (webhookURL : string)
    (reader : io_Reader) (request : http_Request) :
  prepareRequest ctxt webhookURL reader = inl request ->
  exists u, url_Parse webhookURL = inl u
            /\ request = {| req_ctx := ctxt; Method := "POST"; URL := request_URL u;
                            Header := [("Content-Type", "application/json;charset=utf-8")];
                            req_Body := reader |}.
Proof.
  unfold prepareRequest, http_NewRequestWithContext, bind_res.
  destruct (url_Parse webhookURL) as [u|e]; [|discriminate].
  intros [= <-]. exists u. split; reflexivity.
Qed.

Lemma prepareRequest_parsed (ctxt : context_Context) (webhookURL : string)
    (reader : io_Reader) (u : url_URL) :
  url_Parse webhookURL = inl u ->
  prepareRequest ctxt webhookURL reader
  = inl {| req_ctx := ctxt; Method := "POST"; URL := request_URL u;
           Header := [("Content-Type", "application/json;charset=utf-8")];
           req_Body := reader |}.
Proof.
  intros Hu. unfold prepareRequest, http_NewRequestWithContext, bind_res.
  rewrite Hu. reflexivity.
Qed.

Lemma close_of_response_events (response : http_Response) (closed : option error) :
  omap close_of (response_events response closed) = [(response, closed)].
Proof.
  unfold response_events.
  destruct (processResponse response) as [? [?|]]; destruct closed; reflexivity.
Qed.

Lemma payload_of_response_events (response : http_Response) (closed : option error) :
  omap payload_of (response_events response closed) = [].
Proof.
  unfold response_events.
  destruct (processResponse response) as [? [?|]]; destruct closed; reflexivity.
Qed.

Lemma httpClient_of_response_events (response : http_Response) (closed : option error) :
  omap httpClient_of (response_events response closed) = [].
Proof.
  unfold response_events.
  destruct (processResponse response) as [? [?|]]; destruct closed; reflexivity.
Qed.

Lemma cancel_of_response_events (response : http_Response) (closed : option error) :
  omap cancel_of (response_events response closed) = [].
Proof.
  unfold response_events.
  destruct (processResponse response) as [? [?|]]; destruct closed; reflexivity.
Qed.

(** The run of [Send] taken apart: the run of [sendWithContext] under the
    context of [Send], and the cancelling of that context. *)
Lemma Send_run_parts {W : Type} (h : handler W) (webhookURL : string) (w : W) :
  exists evs' : list event,
    snd (run h (Send webhookURL) w) = evs' ++ [Ev (context_cancel Send_context) tt]
    /\ send_run Send_context webhookURL evs' (fst (fst (run h (Send webhookURL) w))).
Proof. exact (Send_run h webhookURL w). Qed.

(** X1. Whatever implements the client and the message, the request of an
    exchange is a POST to the parsed webhook URL, made under the context
    of [Send], with the one header [Content-Type:
    application/json;charset=utf-8]; its body is the reader the message's
    [Payload] returned, and the client asked is the one [HTTPClient]
    returned. *)
Theorem Send_request_shape {W : Type} (h : handler W) (webhookURL : string) (w : W) :
  let '(_, _, evs) := run h (Send webhookURL) w in
  forall c request outcome,
    In (c, request, outcome) (exchanges evs) ->
    Method request = "POST"
    /\ Header request = [("Content-Type", "application/json;charset=utf-8")]
    /\ req_ctx request = Send_context
    /\ (exists u, url_Parse webhookURL = inl u /\ URL request = request_URL u)
    /\ omap payload_of evs = [req_Body request]
    /\ omap httpClient_of evs = [c].
Proof.
  destruct (Send_run_parts h webhookURL w) as (evs' & Hevs & Hrun).
  destruct (run h (Send webhookURL) w) as [[err w'] evs]. simpl in Hevs, Hrun.
  subst evs. intros c request outcome. unfold exchanges.
  rewrite !omap_app. simpl. rewrite !app_nil_r.
  destruct Hrun as [e|e|e|reader e Hreq|reader req c0 e Hreq
                   |reader req c0 response closed Hreq];
    try (simpl; intros []; fail).
  - simpl. intros [[= <- <- <-]|[]].
    apply prepareRequest_inl in Hreq as (u & Hu & ->). simpl. eauto 10.
  - rewrite !omap_app. fold (exchanges (response_events response closed)).
    rewrite exchanges_response_events, payload_of_response_events,
      httpClient_of_response_events. simpl.
    intros [[= <- <- <-]|[]].
    apply prepareRequest_inl in Hreq as (u & Hu & ->). simpl. eauto 10.
Qed.

(** X2. Whatever implements the client and the message, the body of a
    response is closed exactly when a response was received, once, and
    nothing else is closed; a run receives at most one response. *)
Theorem Send_closes_body_once {W : Type} (h : handler W) (webhookURL : string) (w : W) :
  let '(_, _, evs) := run h (Send webhookURL) w in
  List.map fst (omap close_of evs) = responses evs
  /\ (length (responses evs) <= 1)%nat.
Proof.
  destruct (Send_run_parts h webhookURL w) as (evs' & Hevs & Hrun).
  destruct (run h (Send webhookURL) w) as [[err w'] evs]. simpl in Hevs, Hrun.
  subst evs. unfold responses, exchanges. rewrite !omap_app. simpl. rewrite !app_nil_r.
  destruct Hrun as [e|e|e|reader e Hreq|reader req c0 e Hreq
                   |reader req c0 response closed Hreq];
    try (simpl; split; [reflexivity | lia]).
  rewrite !omap_app. fold (exchanges (response_events response closed)).
  rewrite exchanges_response_events, close_of_response_events. simpl.
  split; [reflexivity | lia].
Qed.

(** X3. Whatever implements the client and the message, [Send] cancels its
    context on every path: exactly one context is cancelled, it is the one
    with the timeout, and the cancelling is the last call of the run. *)
Theorem Send_cancels_context {W : Type} (h : handler W) (webhookURL : string) (w : W) :
  let '(_, _, evs) := run h (Send webhookURL) w in
  omap cancel_of evs = [context_WithTimeout context_Background WebhookSendTimeout]
  /\ last evs
     = Some (Ev (context_cancel (context_WithTimeout context_Background WebhookSendTimeout))
               tt).
Proof.
  destruct (Send_run_parts h webhookURL w) as (evs' & Hevs & Hrun).
  destruct (run h (Send webhookURL) w) as [[err w'] evs]. simpl in Hevs, Hrun.
  subst evs. rewrite omap_app, last_snoc. split; [|reflexivity].
  destruct Hrun as [e|e|e|reader e Hreq|reader req c0 e Hreq
                   |reader req c0 response closed Hreq]; try reflexivity.
  rewrite omap_app, cancel_of_response_events. reflexivity.
Qed.

Lemma processResponse_cases (response : http_Response) :
  (accepted_response response /\ processResponse response = ("1", None))
  \/ (~ accepted_response response
      /\ exists err, processResponse response = (EmptyString, Some err)).
Proof.
  unfold accepted_response.
  destruct (body_readErr (Body response)) as [text|] eqn:Hread.
  { right. split; [intros (H & _); discriminate|].
    eexists. apply processResponse_read_failed. exact Hread. }
  destruct (Z_lt_le_dec (StatusCode response) 299) as [Hs|Hs].
  - destruct (decide (body_data (Body response) = "1")) as [Hb|Hb].
    + left. split; [auto|]. apply processResponse_ok; assumption.
    + right. split; [intros (_ & _ & H); contradiction|].
      eexists. apply processResponse_text; assumption.
  - right. split; [intros (_ & H & _); lia|].
    eexists. apply processResponse_status; assumption.
Qed.

Lemma response_result_None_iff (response : http_Response) :
  response_result response = None <-> accepted_response response.
Proof.
  unfold response_result.
  destruct (processResponse_cases response) as [[Hacc ->]|[Hnot [err ->]]].
  - tauto.
  - split; [discriminate | tauto].
Qed.

(** X4. [processResponse] returns a string only with success: it returns
    the text ["1"] and no error exactly when the body could be read, the
    status code is below 299 and the body is the one byte [1], without any
    byte around it; in every other case it returns the empty string and an
    error. *)
Theorem processResponse_string_with_success (response : http_Response) :
  let '(responseString, err) := processResponse response in
  (err = None <-> accepted_response response)
  /\ (err = None -> responseString = "1")
  /\ (err <> None -> responseString = EmptyString).
Proof.
  destruct (processResponse_cases response) as [[Hacc ->]|[Hnot [err ->]]].
  - split; [tauto|]. split; [reflexivity | intros H; now contradict H].
  - split; [split; [discriminate | tauto]|]. split; [discriminate | reflexivity].
Qed.

Lemma processResponse_string_with_success_witness :
  fst (processResponse (response_of 200 "200 OK" "1")) = "1"
  /\ fst (processResponse (response_of 200 "200 OK" " 1")) = EmptyString.
Proof.
  split.
  - pose proof (processResponse_string_with_success (response_of 200 "200 OK" "1")) as H.
    destruct (processResponse _) as [responseString err] eqn:Hp.
    destruct H as (_ & Hok & _). apply Hok.
    vm_compute in Hp. now injection Hp as _ <-.
  - pose proof (processResponse_string_with_success (response_of 200 "200 OK" " 1")) as H.
    destruct (processResponse _) as [responseString err] eqn:Hp.
    destruct H as (_ & _ & Hfail). apply Hfail.
    vm_compute in Hp. injection Hp as _ <-. discriminate.
Defined.

Lemma responses_response_events (response : http_Response) (closed : option error) :
  responses (response_events response closed) = [].
Proof. unfold responses. now rewrite exchanges_response_events. Qed.

(** The send runs, read for their response and result. *)
Lemma send_run_responses (ctxt : context_Context) (webhookURL : string)
    (evs : list event) (err : option error) :
  send_run ctxt webhookURL evs err ->
  (responses evs = [] /\ err <> None)
  \/ exists response closed,
       responses evs = [response]
       /\ omap close_of evs = [(response, closed)]
       /\ err = response_result response
       /\ match closed with
          | Some e =>
              In ("Error closiing response body: %v", [arg_error e]) (omap log_of evs)
          | None => True
          end.
Proof.
  intros Hrun.
  destruct Hrun as [e|e|e|reader e Hreq|reader req c0 e Hreq
                   |reader req c0 response closed Hreq];
    try (left; split; [reflexivity | discriminate]).
  right. exists response, closed. unfold responses, exchanges.
  rewrite !omap_app. fold (exchanges (response_events response closed)).
  rewrite exchanges_response_events, close_of_response_events. simpl.
  repeat split. destruct closed as [e|]; [|exact I].
  unfold response_events.
  destruct (processResponse response) as [? [?|]]; simpl; auto.
Qed.

Lemma responses_cancel (evs : list event) (ctxt : context_Context) :
  responses (evs ++ [Ev (context_cancel ctxt) tt]) = responses evs.
Proof. unfold responses. now rewrite exchanges_cancel. Qed.

(** X5. Whatever implements the client and the message, [Send] returns
    [nil] exactly when the run received a response and that response has a
    body that could be read, a status code below 299 and the body [1]: no
    success is reported that the endpoint did not confirm. *)
Theorem Send_nil_iff_accepted {W : Type} (h : handler W) (webhookURL : string) (w : W) :
  let '(err, _, evs) := run h (Send webhookURL) w in
  err = None
  <-> exists response, responses evs = [response] /\ accepted_response response.
Proof.
  destruct (Send_run_parts h webhookURL w) as (evs' & Hevs & Hrun).
  destruct (run h (Send webhookURL) w) as [[err w'] evs]. simpl in Hevs, Hrun.
  subst evs. rewrite responses_cancel.
  destruct (send_run_responses _ _ _ _ Hrun)
    as [[Hnone Herr]|(response & closed & Hone & _ & Herr & _)].
  - rewrite Hnone. split; [intros H; now contradict H|].
    intros (response & H & _). discriminate.
  - rewrite Hone, Herr, response_result_None_iff. split.
    + intros Hacc. now exists response.
    + intros (response' & [= <-] & Hacc). exact Hacc.
Qed.

(** X6. Whatever implements the client and the message, a failure to close
    the body of the response does not change what [Send] returns: the
    result is the one of processing the response, and the failure is
    written to the log. *)
Theorem Send_close_failure_logged {W : Type} (h : handler W) (webhookURL : string)
    (w : W) :
  let '(err, _, evs) := run h (Send webhookURL) w in
  forall response closed,
    In (response, closed) (omap close_of evs) ->
    err = response_result response
    /\ match closed with
       | Some e =>
           In ("Error closiing response body: %v", [arg_error e]) (omap log_of evs)
       | None => True
       end.
Proof.
  destruct (Send_run_parts h webhookURL w) as (evs' & Hevs & Hrun).
  destruct (run h (Send webhookURL) w) as [[err w'] evs]. simpl in Hevs, Hrun.
  subst evs. intros response closed. rewrite !omap_app. simpl. rewrite app_nil_r.
  destruct (send_run_responses _ _ _ _ Hrun)
    as [[Hnone Herr]|(response' & closed' & _ & Hclose & Herr & Hlog)].
  - assert (omap close_of evs' = []) as ->; [|intros []].
    destruct Hrun as [e|e|e|reader e Hreq|reader req c0 e Hreq
                     |reader req c0 response0 closed0 Hreq]; try reflexivity.
    unfold responses, exchanges in Hnone. rewrite !omap_app in Hnone.
    fold (exchanges (response_events response0 closed0)) in Hnone.
    rewrite exchanges_response_events in Hnone. discriminate.
  - rewrite Hclose. intros [[= <- <-]|[]]. split; [exact Herr|].
    destruct closed' as [e|]; [|exact I]. apply in_or_app. now left.
Qed.

(* ===================================================================== *)
(** * More on Prepare and on Send with the package's client and card *)
(* ===================================================================== *)

(** X7. [Prepare] never fails and changes nothing but the card's buffer:
    the exported fields are kept, the card points to one buffer afterwards
    (the one it pointed to before, or else a new address that no buffer of
    the store had), and every other buffer of the store is as before. *)
Theorem Prepare_frame (card : MessageCard) (h : heap) :
  let '(card', h', err) := Prepare card h in
  err = None
  /\ same_fields card' card
  /\ exists l,
       payload card' = Some l
       /\ (forall l0, payload card = Some l0 -> l = l0)
       /\ (payload card = None -> h !! l = None)
       /\ (forall l', l' <> l -> h' !! l' = h !! l').
Proof.
  rewrite Prepare_eq. split; [reflexivity|]. split; [repeat split|].
  exists (Prepare_loc card h). split; [reflexivity|]. unfold Prepare_loc.
  split; [|split].
  - intros l0 ->. reflexivity.
  - intros ->. apply not_elem_of_dom, is_fresh.
  - intros l' Hne. apply lookup_insert_ne. congruence.
Qed.

Lemma Prepare_frame_witness :
  let h : heap := {[ 1%positive := {| unread := "kept" |} ]} in
  snd (fst (Prepare (card_with "Build" "passed" EmptyString None) h)) !! 1%positive
  = Some {| unread := "kept" |}.
Proof.
  intros h.
  pose proof (Prepare_frame (card_with "Build" "passed" EmptyString None) h) as Hframe.
  destruct (Prepare _ _) as [[card' h'] err] eqn:Hp.
  destruct Hframe as (_ & _ & l & Hl & _ & Hfresh & Hother).
  simpl. rewrite Hother; [reflexivity|].
  intros <-. specialize (Hfresh eq_refl). discriminate.
Defined.

(** One call of a run of the package's own client and card, any method. *)
Ltac send_step :=
  cbn [run bind implementation w_message w_heap
       MessageSender_ValidateWebhook MessageSender_HTTPClient TeamsClient_MessageSender
       messageValidator_Validate messagePreparer_Prepare teamsMessage_Payload
       teamsMessage_messageValidator teamsMessage_messagePreparer
       MessageCard_teamsMessage MessageCard_messageValidator
       MessageCard_messagePreparer].

(** [Send] with a webhook URL that is refused: one call. *)
Lemma Send_url_invalid (client : TeamsClient) (webhookURL : string)
    (card : MessageCard) (h : heap) (e : error) :
  ValidateWebhook client webhookURL = Some e ->
  TeamsClient_Send client webhookURL card h
  = (Some (fmt_Errorf "webhook URL validation failed: %w" [arg_error e]),
     {| w_message := card; w_heap := h |},
     [Ev (client_ValidateWebhook webhookURL) (Some e);
      Ev (context_cancel Send_context) tt]).
Proof.
  intros Hurl. unfold TeamsClient_Send, Send, sendWithContext, call_.
  send_step. rewrite Hurl. reflexivity.
Qed.

(** [Send] with a card that is refused: two calls. *)
Lemma Send_card_invalid (client : TeamsClient) (webhookURL : string)
    (card : MessageCard) (h : heap) (e : error) :
  ValidateWebhook client webhookURL = None -> Validate card = Some e ->
  TeamsClient_Send client webhookURL card h
  = (Some (fmt_Errorf "failed to validate message: %w" [arg_error e]),
     {| w_message := card; w_heap := h |},
     [Ev (client_ValidateWebhook webhookURL) None;
      Ev message_Validate (Some e);
      Ev (context_cancel Send_context) tt]).
Proof.
  intros Hurl Hcard. unfold TeamsClient_Send, Send, sendWithContext, call_.
  send_step. rewrite Hurl. send_step. rewrite Hcard. reflexivity.
Qed.

(** The run of [Send] with a valid webhook URL and a valid card, whole. *)
Lemma Send_valid_run (client : TeamsClient) (webhookURL : string)
    (card : MessageCard) (h : heap) :
  ValidateWebhook client webhookURL = None -> Validate card = None ->
  let l := Prepare_loc card h in
  let json := fst (json_Marshal card) in
  exists request,
    prepareRequest Send_context webhookURL (Some l) = inl request
    /\ TeamsClient_Send client webhookURL card h
       = let '(n, outcome) := exchange (httpClient client) request json in
         (match outcome with
          | inl response => response_result response
          | inr text =>
              Some (fmt_Errorf "failed to send message: %w"
                      [arg_error (http_error text)])
          end,
          {| w_message := set_payload card (Some l);
             w_heap := <[l := {| unread := slice_from (n `min` String.length json) json |}]> h |},
          [Ev (client_ValidateWebhook webhookURL) None;
           Ev message_Validate None;
           Ev message_Prepare None;
           Ev message_Payload (Some l);
           Ev client_HTTPClient (httpClient client);
           Ev (httpClient_Do (httpClient client) request)
             match outcome with
             | inl response => inl response
             | inr text => inr (http_error text)
             end]
          ++ match outcome with
             | inl response => response_events response (body_Close (Body response))
             | inr _ => []
             end
          ++ [Ev (context_cancel Send_context) tt]).
Proof.
  intros Hurl Hcard l json.
  pose proof (proj1 (ValidateWebhook_iff client webhookURL) Hurl) as [[u Hu] _].
  pose proof (prepareRequest_parsed Send_context webhookURL (Some l) u Hu) as Hreq.
  eexists. split; [exact Hreq|].
  set (request := {| req_ctx := Send_context; Method := "POST"; URL := request_URL u;
                     Header := [("Content-Type", "application/json;charset=utf-8")];
                     req_Body := Some l |}) in *.
  destruct (exchange (httpClient client) request json) as [n outcome] eqn:Hex.
  unfold TeamsClient_Send, Send, sendWithContext, call_. fold Send_context.
  send_step. rewrite Hurl. send_step. rewrite Hcard. send_step.
  rewrite Prepare_eq. fold l. fold json. send_step.
  unfold Payload at 1. simpl payload. rewrite Hreq. send_step.
  unfold Client_Do. simpl req_Body. unfold deref, store. rewrite lookup_insert_eq.
  simpl default. unfold HTTPClient. simpl unread. rewrite Hex. rewrite insert_insert_eq.
  unfold Buffer_Next. simpl snd.
  destruct outcome as [response|text].
  - unfold response_result, response_events.
    destruct (processResponse response) as [responseString [e|]];
      send_step; destruct (body_Close (Body response)); send_step; reflexivity.
  - send_step. reflexivity.
Qed.

(** The same in parts. *)
Lemma Send_valid_parts (client : TeamsClient) (webhookURL : string)
    (card : MessageCard) (h : heap) :
  ValidateWebhook client webhookURL = None -> Validate card = None ->
  exists request n outcome,
    prepareRequest Send_context webhookURL (Some (Prepare_loc card h)) = inl request
    /\ exchange (httpClient client) request (fst (json_Marshal card)) = (n, outcome)
    /\ fst (fst (TeamsClient_Send client webhookURL card h))
       = match outcome with
         | inl response => response_result response
         | inr text =>
             Some (fmt_Errorf "failed to send message: %w" [arg_error (http_error text)])
         end
    /\ snd (fst (TeamsClient_Send client webhookURL card h))
       = {| w_message := set_payload card (Some (Prepare_loc card h));
            w_heap :=
              <[Prepare_loc card h :=
                  {| unread :=
                       slice_from (n `min` String.length (fst (json_Marshal card)))
                         (fst (json_Marshal card)) |}]> h |}
    /\ exchanges (snd (TeamsClient_Send client webhookURL card h))
       = [(httpClient client, request,
           match outcome with
           | inl response => inl response
           | inr text => inr (http_error text)
           end)].
Proof.
  intros Hurl Hcard.
  destruct (Send_valid_run client webhookURL card h Hurl Hcard) as (request & Hreq & ->).
  destruct (exchange (httpClient client) request (fst (json_Marshal card)))
    as [n outcome] eqn:Hex.
  exists request, n, outcome. split; [exact Hreq|]. split; [exact Hex|].
  split; [reflexivity|]. split; [reflexivity|]. cbn [snd].
  unfold exchanges. rewrite !omap_app.
  destruct outcome as [response|text]; [|reflexivity].
  fold (exchanges (response_events response (body_Close (Body response)))).
  rewrite exchanges_response_events. reflexivity.
Qed.

(** X8. [Send] with a valid webhook URL and a valid card makes one
    exchange.  The request is the one [prepareRequest] makes for the URL
    with the card's buffer as body; the bytes the network is offered are
    exactly the encoding of the card, whatever the buffer held before;
    the error returned is the one of the exchange, or else the result of
    processing the response.  Afterwards the card points to its buffer and
    the buffer holds the bytes the network did not read. *)
Theorem Send_valid_exchange (client : TeamsClient) (webhookURL : string)
    (card : MessageCard) (h : heap) :
  ValidateWebhook client webhookURL = None -> Validate card = None ->
  let l := Prepare_loc card h in
  let json := fst (json_Marshal card) in
  exists request,
    prepareRequest Send_context webhookURL (Some l) = inl request
    /\ let '(n, outcome) := exchange (httpClient client) request json in
       let '(err, w, evs) := TeamsClient_Send client webhookURL card h in
       err = match outcome with
             | inl response => response_result response
             | inr text =>
                 Some (fmt_Errorf "failed to send message: %w"
                         [arg_error (http_error text)])
             end
       /\ w_message w = set_payload card (Some l)
       /\ w_heap w
          = <[l := {| unread := slice_from (n `min` String.length json) json |}]> h
       /\ exchanges evs
          = [(httpClient client, request,
              match outcome with
              | inl response => inl response
              | inr text => inr (http_error text)
              end)].
Proof.
  intros Hurl Hcard l json.
  destruct (Send_valid_run client webhookURL card h Hurl Hcard) as (request & Hreq & ->).
  exists request. split; [exact Hreq|]. fold l json.
  destruct (exchange (httpClient client) request json) as [n outcome].
  split; [reflexivity|]. split; [reflexivity|]. split; [reflexivity|].
  unfold exchanges. rewrite !omap_app.
  destruct outcome as [response|text]; [|reflexivity].
  fold (exchanges (response_events response (body_Close (Body response)))).
  rewrite exchanges_response_events. reflexivity.
Qed.

Lemma Send_valid_exchange_witness :
  let client := CreateTeamsClient (endpoint (response_of 200 "200 OK" "1")) in
  let card := card_with "Build" "passed" EmptyString (Some 1%positive) in
  let h : heap := {[ 1%positive := {| unread := "earlier payload" |} ]} in
  let result :=
    TeamsClient_Send client "https://contoso.webhook.office.com/webhookb2/a1b2" card h in
  fst (fst result) = None
  /\ w_heap (snd (fst result)) = {[ 1%positive := {| unread := EmptyString |} ]}.
Proof.
  intros client card h result.
  assert (ValidateWebhook client "https://contoso.webhook.office.com/webhookb2/a1b2"
          = None) as Hurl by (vm_compute; reflexivity).
  assert (Validate card = None) as Hcard by reflexivity.
  destruct (Send_valid_exchange client _ card h Hurl Hcard) as (request & Hreq & Hsend).
  vm_compute in Hreq. injection Hreq as <-.
  fold result in Hsend. destruct result as [[err w] evs].
  cbn [exchange httpClient client CreateTeamsClient endpoint] in Hsend.
  destruct Hsend as (Herr & _ & Hheap & _). split.
  - rewrite Herr. vm_compute. reflexivity.
  - simpl. rewrite Hheap. vm_compute. reflexivity.
Defined.

(** X9. Whatever the outcome, [Send] keeps the exported fields of the card;
    the card's buffer pointer is as before or points to the buffer
    [Prepare] wrote, and no buffer of the store other than that one is
    changed. *)
Theorem Send_frame (client : TeamsClient) (webhookURL : string) (card : MessageCard)
    (h : heap) :
  let '(_, w, _) := TeamsClient_Send client webhookURL card h in
  same_fields (w_message w) card
  /\ (payload (w_message w) = payload card
      \/ payload (w_message w) = Some (Prepare_loc card h))
  /\ (forall l', l' <> Prepare_loc card h -> w_heap w !! l' = h !! l').
Proof.
  destruct (ValidateWebhook client webhookURL) as [e|] eqn:Hurl.
  { rewrite (Send_url_invalid _ _ _ _ _ Hurl). simpl.
    split; [repeat split|]. split; [now left | reflexivity]. }
  destruct (Validate card) as [e|] eqn:Hcard.
  { rewrite (Send_card_invalid _ _ _ _ _ Hurl Hcard). simpl.
    split; [repeat split|]. split; [now left | reflexivity]. }
  destruct (Send_valid_parts client webhookURL card h Hurl Hcard)
    as (request & n & outcome & _ & _ & _ & Hw & _).
  destruct (TeamsClient_Send client webhookURL card h) as [[err w] evs].
  cbn [fst snd] in Hw. subst w. cbn [w_message w_heap].
  split; [repeat split|]. split; [now right|].
  intros l' Hne. apply lookup_insert_ne. congruence.
Qed.

Lemma Send_frame_witness :
  let client := CreateTeamsClient (endpoint (response_of 200 "200 OK" "1")) in
  let h : heap := {[ 1%positive := {| unread := "kept" |} ]} in
  let result :=
    TeamsClient_Send client "https://contoso.webhook.office.com/webhookb2/a1b2"
      (card_with "Build" "passed" EmptyString None) h in
  w_heap (snd (fst result)) !! 1%positive = Some {| unread := "kept" |}.
Proof.
  intros client h result.
  pose proof (Send_frame client "https://contoso.webhook.office.com/webhookb2/a1b2"
                (card_with "Build" "passed" EmptyString None) h) as Hframe.
  fold result in Hframe. destruct result as [[err w] evs].
  destruct Hframe as (_ & _ & Hother). simpl. rewrite Hother; [reflexivity|].
  vm_compute. discriminate.
Defined.

(* ===================================================================== *)
(** * More on the webhook URL *)
(* ===================================================================== *)



Lemma strings_Index_cons_ne (c d : ascii) (s : string) :
  c <> d ->
  strings_Index (String c s) (str1 d) = S <$> strings_Index s (str1 d).
Proof.
  intros Hne. cbn [strings_Index strings_HasPrefix str1].
  rewrite bool_decide_eq_false_2 by congruence. reflexivity.
Qed.





(* ===================================================================== *)
(** * The errors of Send *)
(* ===================================================================== *)












(* ===================================================================== *)
(** * Success of Send, and main *)
(* ===================================================================== *)

Lemma Validate_None_iff (card : MessageCard) :
  Validate card = None <-> Title card <> EmptyString /\ Text card <> EmptyString.
Proof.
  split.
  - intros Hcard. split; intros Hempty.
    + rewrite (Validate_title_empty _ Hempty) in Hcard. discriminate.
    + destruct (decide (Title card = EmptyString)) as [Ht|Ht].
      * rewrite (Validate_title_empty _ Ht) in Hcard. discriminate.
      * rewrite (Validate_text_empty _ Ht Hempty) in Hcard. discriminate.
  - intros [Ht Hx]. exact (Validate_ok _ Ht Hx).
Qed.

(** [Send] returned [nil]: what must have happened. *)
Lemma Send_nil_inv (client : TeamsClient) (webhookURL : string) (card : MessageCard)
    (h : heap) :
  fst (fst (TeamsClient_Send client webhookURL card h)) = None ->
  ValidateWebhook client webhookURL = None
  /\ Validate card = None
  /\ exists request n response,
       prepareRequest Send_context webhookURL (Some (Prepare_loc card h)) = inl request
       /\ exchange (httpClient client) request (fst (json_Marshal card))
          = (n, inl response)
       /\ accepted_response response.
Proof.
  destruct (ValidateWebhook client webhookURL) as [e|] eqn:Hurl.
  { rewrite (Send_url_invalid _ _ _ _ _ Hurl). discriminate. }
  destruct (Validate card) as [e|] eqn:Hcard.
  { rewrite (Send_card_invalid _ _ _ _ _ Hurl Hcard). discriminate. }
  destruct (Send_valid_parts client webhookURL card h Hurl Hcard)
    as (request & n & outcome & Hreq & Hex & -> & _).
  destruct outcome as [response|text]; [|discriminate].
  intros Hnil. split; [reflexivity|]. split; [reflexivity|].
  exists request, n, response. split; [exact Hreq|]. split; [exact Hex|].
  now apply response_result_None_iff.
Qed.

(** What makes [Send] return [nil]. *)
Lemma Send_nil_intro (client : TeamsClient) (webhookURL : string) (card : MessageCard)
    (h : heap) (request : http_Request) (n : nat) (response : http_Response) :
  ValidateWebhook client webhookURL = None -> Validate card = None ->
  prepareRequest Send_context webhookURL (Some (Prepare_loc card h)) = inl request ->
  exchange (httpClient client) request (fst (json_Marshal card)) = (n, inl response) ->
  accepted_response response ->
  fst (fst (TeamsClient_Send client webhookURL card h)) = None.
Proof.
  intros Hurl Hcard Hreq Hex Hacc.
  destruct (Send_valid_parts client webhookURL card h Hurl Hcard)
    as (request' & n' & outcome & Hreq' & Hex' & -> & _).
  rewrite Hreq in Hreq'. injection Hreq' as <-.
  assert ((n', outcome) = (n, inl response)) as Hsame
    by (rewrite <- Hex'; exact Hex).
  injection Hsame as _ ->. now apply response_result_None_iff.
Qed.

(** X12. [Send] with the package's client and card returns [nil] exactly
    when the webhook URL is accepted, the card has a title and a text, and
    the network, offered the encoding of the card as the body of the
    request, answers with a response that could be read, has a status code
    below 299 and the body [1]. *)
Theorem TeamsClient_Send_nil_iff (client : TeamsClient) (webhookURL : string)
    (card : MessageCard) (h : heap) :
  fst (fst (TeamsClient_Send client webhookURL card h)) = None
  <-> ValidateWebhook client webhookURL = None
      /\ Title card <> EmptyString /\ Text card <> EmptyString
      /\ exists request n response,
           prepareRequest Send_context webhookURL (Some (Prepare_loc card h))
           = inl request
           /\ exchange (httpClient client) request (fst (json_Marshal card))
              = (n, inl response)
           /\ accepted_response response.
Proof.
  split.
  - intros Hnil. destruct (Send_nil_inv _ _ _ _ Hnil) as (Hurl & Hcard & Hrest).
    apply Validate_None_iff in Hcard as [Ht Hx].
    split; [exact Hurl|]. split; [exact Ht|]. split; [exact Hx | exact Hrest].
  - intros (Hurl & Ht & Hx & request & n & response & Hreq & Hex & Hacc).
    assert (Validate card = None) as Hcard by (apply Validate_None_iff; now split).
    exact (Send_nil_intro _ _ _ _ _ _ _ Hurl Hcard Hreq Hex Hacc).
Qed.

Lemma TeamsClient_Send_nil_iff_witness :
  fst (fst (TeamsClient_Send (CreateTeamsClient (endpoint (response_of 200 "200 OK" "1")))
              "https://contoso.webhook.office.com/webhookb2/a1b2"
              (card_with "Build" "passed" EmptyString None) ∅)) = None.
Proof.
  apply TeamsClient_Send_nil_iff.
  split; [vm_compute; reflexivity|]. split; [discriminate|]. split; [discriminate|].
  eexists _, _, (response_of 200 "200 OK" "1").
  split; [vm_compute; reflexivity|]. split; [reflexivity|].
  split; [reflexivity|]. split; [reflexivity | reflexivity].
Defined.

Lemma json_Marshal_main_card (jsonMessage : jsonMsg) :
  fst (json_Marshal (main_card jsonMessage))
  = main_wire (jsonMsg_Title jsonMessage) (jsonMsg_Text jsonMessage).
Proof.
  change (main_card jsonMessage)
    with (card_with (jsonMsg_Title jsonMessage) (jsonMsg_Text jsonMessage)
            EmptyString None).
  rewrite json_Marshal_card_with. reflexivity.
Qed.

(** X13. [main] exits with status 0 or 1, and with 0 exactly when there is
    an argument, the file named by it opens, its bytes decode, the webhook
    URL is accepted, title and text are not empty, and the network, offered
    the card with that title and text and no colour, answers with a
    response that could be read, has a status code below 299 and the body
    [1]. *)
Theorem main_exit_status (env : main_env) :
  (exit_status (main env) = 0 \/ exit_status (main env) = 1)
  /\ (exit_status (main env) = 0
      <-> (2 <= length (os_Args env))%nat
          /\ exists byteValue jsonMessage request n response,
               os_Open_ReadAll env (nth 1 (os_Args env) EmptyString) = inl byteValue
               /\ json_Unmarshal env byteValue = (jsonMessage, None)
               /\ ValidateWebhook (CreateTeamsClient (main_network env))
                    (WebhookURL jsonMessage) = None
               /\ jsonMsg_Title jsonMessage <> EmptyString
               /\ jsonMsg_Text jsonMessage <> EmptyString
               /\ prepareRequest Send_context (WebhookURL jsonMessage)
                    (Some (Prepare_loc (main_card jsonMessage) ∅)) = inl request
               /\ exchange (main_network env) request
                    (main_wire (jsonMsg_Title jsonMessage) (jsonMsg_Text jsonMessage))
                  = (n, inl response)
               /\ accepted_response response).
Proof.
  unfold main.
  destruct (length (os_Args env) <? 2)%nat eqn:Hargs.
  { apply Nat.ltb_lt in Hargs. simpl. split; [now right|].
    split; [discriminate | intros [H _]; lia]. }
  apply Nat.ltb_ge in Hargs.
  destruct (os_Open_ReadAll env (nth 1 (os_Args env) EmptyString))
    as [byteValue|oerr] eqn:Hopen.
  2:{ simpl. split; [now right|]. split; [discriminate|].
      intros (_ & ? & ? & ? & ? & ? & H & _). discriminate. }
  destruct (json_Unmarshal env byteValue) as [jsonMessage [derr|]] eqn:Hdecode.
  { simpl. split; [now right|]. split; [discriminate|].
    intros (_ & b & m & ? & ? & ? & [= <-] & H & _). rewrite Hdecode in H.
    discriminate. }
  pose proof (Send_nil_inv (CreateTeamsClient (main_network env))
                (WebhookURL jsonMessage) (main_card jsonMessage) ∅) as Hinv.
  pose proof (Send_nil_intro (CreateTeamsClient (main_network env))
                (WebhookURL jsonMessage) (main_card jsonMessage) ∅) as Hintro.
  rewrite json_Marshal_main_card in Hinv, Hintro.
  case_bool_decide as Hempty.
  { simpl. split; [now right|]. split; [discriminate|].
    intros (_ & b & m & ? & ? & ? & [= <-] & H & Hurl & _).
    rewrite Hdecode in H. injection H as <-. rewrite Hempty in Hurl.
    vm_compute in Hurl. discriminate. }
  destruct (TeamsClient_Send _ _ _ _) as [[[err|] w] evs];
    cbn [fst snd] in Hinv, Hintro; cbn [exit_status].
  - split; [now right|]. split; [discriminate|].
    intros (_ & b & m & request & n & response & [= <-] & H & Hrest).
    rewrite Hdecode in H. injection H as <-.
    assert (Some err = None) as Habs; [|discriminate].
    destruct Hrest as (Hurl & Ht & Hx & Hreq & Hex & Hacc).
    apply (Hintro request n response); try assumption.
    apply Validate_None_iff. now split.
  - split; [now left|]. split; [intros _ | reflexivity].
    split; [exact Hargs|].
    destruct (Hinv eq_refl) as (Hurl & Hcard & request & n & response & Hrest).
    apply Validate_None_iff in Hcard as [Ht Hx].
    exists byteValue, jsonMessage, request, n, response.
    destruct Hrest as (Hreq & Hex & Hacc).
    split; [reflexivity|]. split; [exact Hdecode|]. split; [exact Hurl|].
    split; [exact Ht|]. split; [exact Hx|]. split; [exact Hreq|].
    split; [exact Hex | exact Hacc].
Qed.

Lemma main_exit_status_witness :
  let env :=
    {| os_Args := ["main"; "message.json"];
       os_Open_ReadAll := fun _ => inl "{}";
       json_Unmarshal :=
         fun _ => ({| WebhookURL := "https://contoso.webhook.office.com/webhookb2/a1b2";
                      jsonMsg_Title := "Build"; jsonMsg_Text := "passed" |}, None);
       main_network := endpoint (response_of 200 "200 OK" "1") |} in
  exit_status (main env) = 0.
Proof.
  intros env. apply (main_exit_status env). split; [simpl; lia|].
  eexists _, _, _, _, (response_of 200 "200 OK" "1").
  split; [reflexivity|]. split; [reflexivity|]. split; [vm_compute; reflexivity|].
  split; [discriminate|]. split; [discriminate|].
  split; [vm_compute; reflexivity|]. split; [reflexivity|].
  split; [reflexivity|]. split; [reflexivity | reflexivity].
Defined.

(** X14. Whatever [main] sends goes to its own network, once, as the
    request [prepareRequest] makes for the webhook URL of the decoded file,
    and the outcome of the exchange is what the network answers when it is
    offered the card with the title and the text of the file and no
    colour: these bytes and no others.  It happens only when there is an
    argument, the file opened and decoded, the webhook URL is not empty and
    is accepted, and title and text are not empty; and [main] then exits
    with status 0 exactly when the exchange gave a response that was
    accepted. *)
Theorem main_exchange (env : main_env) (c : http_Client) (request : http_Request)
    (outcome : http_Response + error) :
  In (c, request, outcome) (exchanges (main_events (main env))) ->
  exists byteValue jsonMessage,
    (2 <= length (os_Args env))%nat
    /\ os_Open_ReadAll env (nth 1 (os_Args env) EmptyString) = inl byteValue
    /\ json_Unmarshal env byteValue = (jsonMessage, None)
    /\ WebhookURL jsonMessage <> EmptyString
    /\ ValidateWebhook (CreateTeamsClient (main_network env)) (WebhookURL jsonMessage)
       = None
    /\ jsonMsg_Title jsonMessage <> EmptyString
    /\ jsonMsg_Text jsonMessage <> EmptyString
    /\ c = main_network env
    /\ prepareRequest Send_context (WebhookURL jsonMessage)
         (Some (Prepare_loc (main_card jsonMessage) ∅)) = inl request
    /\ outcome
       = match snd (exchange (main_network env) request
                      (main_wire (jsonMsg_Title jsonMessage)
                         (jsonMsg_Text jsonMessage))) with
         | inl response => inl response
         | inr text => inr (http_error text)
         end
    /\ exchanges (main_events (main env)) = [(c, request, outcome)]
    /\ (exit_status (main env) = 0
        <-> exists response, outcome = inl response /\ accepted_response response).
Proof.
  unfold main.
  destruct (length (os_Args env) <? 2)%nat eqn:Hargs; [intros []|].
  apply Nat.ltb_ge in Hargs.
  destruct (os_Open_ReadAll env (nth 1 (os_Args env) EmptyString))
    as [byteValue|oerr]; [|intros []].
  destruct (json_Unmarshal env byteValue) as [jsonMessage [derr|]] eqn:Hdecode;
    [intros []|].
  case_bool_decide as Hempty; [intros []|].
  set (client := CreateTeamsClient (main_network env)).
  destruct (ValidateWebhook client (WebhookURL jsonMessage)) as [e|] eqn:Hurl.
  { rewrite (Send_url_invalid _ _ _ _ _ Hurl). simpl. intros []. }
  destruct (Validate (main_card jsonMessage)) as [e|] eqn:Hcard.
  { rewrite (Send_card_invalid _ _ _ _ _ Hurl Hcard). simpl. intros []. }
  assert (jsonMsg_Title jsonMessage <> EmptyString
          /\ jsonMsg_Text jsonMessage <> EmptyString) as [Ht Hx].
  { split; intros Hnone.
    - rewrite (Validate_title_empty (main_card jsonMessage) Hnone) in Hcard.
      discriminate.
    - destruct (decide (jsonMsg_Title jsonMessage = EmptyString)) as [Ht|Ht].
      + rewrite (Validate_title_empty (main_card jsonMessage) Ht) in Hcard.
        discriminate.
      + rewrite (Validate_text_empty (main_card jsonMessage) Ht Hnone) in Hcard.
        discriminate. }
  destruct (Send_valid_parts client (WebhookURL jsonMessage)
              (main_card jsonMessage) ∅ Hurl Hcard)
    as (request' & n & answer & Hreq & Hex & Herr & _ & Hevs).
  rewrite json_Marshal_main_card in Hex.
  destruct (TeamsClient_Send client _ _ _) as [[err w] evs].
  cbn [fst snd] in Herr, Hevs.
  assert (In (c, request, outcome) (exchanges evs)
          -> c = main_network env /\ request = request'
             /\ outcome = match answer with
                          | inl response => inl response
                          | inr text => inr (http_error text)
                          end) as Hone.
  { rewrite Hevs. intros [[= <- <- <-]|[]]. now repeat split. }
  assert (exchanges (main_events
            match err with
            | Some err0 =>
                {| exit_status := 1;
                   main_lines :=
                     [main_log_Printf "failed to send message: %v" [arg_error err0]];
                   main_events := evs |}
            | None =>
                {| exit_status := 0;
                   main_lines :=
                     [fmt_Printf
                        (str1 ch_nl +:+ "This is the webhookURL: %s" +:+ str1 ch_nl
                         +:+ "This is the titleData: %s" +:+ str1 ch_nl
                         +:+ "This is the textData: %s" +:+ str1 ch_nl)
                        [arg_string (WebhookURL jsonMessage);
                         arg_string (jsonMsg_Title jsonMessage);
                         arg_string (jsonMsg_Text jsonMessage)]];
                   main_events := evs |}
            end) = exchanges evs) as -> by (destruct err; reflexivity).
  intros Hin. destruct (Hone Hin) as (-> & -> & ->).
  exists byteValue, jsonMessage. split; [exact Hargs|].
  split; [reflexivity|]. split; [exact Hdecode|]. split; [exact Hempty|].
  split; [exact Hurl|]. split; [exact Ht|].
  split; [exact Hx|]. split; [reflexivity|]. split; [exact Hreq|].
  split; [change (main_network env) with (httpClient client); now rewrite Hex|].
  split; [exact Hevs|].
  rewrite Herr. destruct answer as [response|text].
  - destruct (response_result response) as [e|] eqn:Hres; simpl.
    + split; [discriminate|]. intros (response' & [= <-] & Hacc).
      apply response_result_None_iff in Hacc. congruence.
    + split; [intros _ | reflexivity]. exists response.
      split; [reflexivity|]. now apply response_result_None_iff.
  - simpl. split; [discriminate|]. intros (response & Habs & _). discriminate.
Qed.

Lemma main_exchange_witness :
  let network :=
    {| exchange :=
         fun _ avail =>
           (String.length avail,
            inl (if bool_decide (avail = main_wire "Build" "passed")
                 then response_of 200 "200 OK" "1"
                 else response_of 400 "400 Bad Request" "Bad payload")) |} in
  let env :=
    {| os_Args := ["main"; "message.json"];
       os_Open_ReadAll := fun _ => inl "{}";
       json_Unmarshal :=
         fun _ => ({| WebhookURL := "https://contoso.webhook.office.com/webhookb2/a1b2";
                      jsonMsg_Title := "Build"; jsonMsg_Text := "passed" |}, None);
       main_network := network |} in
  exists request outcome,
    exchanges (main_events (main env)) = [(network, request, outcome)]
    /\ outcome = inl (response_of 200 "200 OK" "1")
    /\ exit_status (main env) = 0.
Proof.
  intros network env.
  assert (exists request outcome,
            In (network, request, outcome) (exchanges (main_events (main env))))
    as (request & outcome & Hin).
  { eexists _, _. vm_compute. left. reflexivity. }
  exists request, outcome.
  destruct (main_exchange env _ _ _ Hin)
    as (byteValue & jsonMessage & _ & _ & Hdecode & _ & _ & _ & _ & _ & _ & Hout
        & Hevs & Hexit).
  injection Hdecode as <-.
  assert (outcome = inl (response_of 200 "200 OK" "1")) as Houtcome
    by (rewrite Hout; vm_compute; reflexivity).
  split; [exact Hevs|]. split; [exact Houtcome|].
  apply Hexit. exists (response_of 200 "200 OK" "1"). split; [exact Houtcome|].
  split; [reflexivity|]. split; [reflexivity | reflexivity].
Defined.

(* ===================================================================== *)
(** * Runs of the package's client on examples *)
(* ===================================================================== *)

Lemma Send_request_shape_witness :
  let '(_, _, evs) :=
    TeamsClient_Send (CreateTeamsClient (endpoint (response_of 200 "200 OK" "1")))
      "https://contoso.webhook.office.com/webhookb2/a1b2"
      (card_with "Build" "passed" EmptyString None) ∅ in
  exists c request outcome,
    exchanges evs = [(c, request, outcome)]
    /\ Method request = "POST"
    /\ Header request = [("Content-Type", "application/json;charset=utf-8")]
    /\ omap payload_of evs = [req_Body request].
Proof.
  unfold TeamsClient_Send.
  pose proof (Send_request_shape
                (implementation
                   (CreateTeamsClient (endpoint (response_of 200 "200 OK" "1"))))
                "https://contoso.webhook.office.com/webhookb2/a1b2"
                {| w_message := card_with "Build" "passed" EmptyString None;
                   w_heap := ∅ |}) as Hshape.
  destruct (run _ _ _) as [[err w] evs] eqn:Hrun.
  vm_compute in Hrun. injection Hrun as <- <- <-.
  destruct (Hshape _ _ _ (or_introl eq_refl)) as (Hmethod & Hheader & _ & _ & Hbody & _).
  eexists _, _, _. split; [reflexivity|]. split; [exact Hmethod|].
  split; [exact Hheader | exact Hbody].
Defined.

Lemma Send_close_failure_logged_witness :
  let response :=
    {| Status := "200 OK"; StatusCode := 200;
       Body := {| body_data := "1"; body_readErr := None;
                  body_closeErr := Some "broken pipe" |} |} in
  let '(err, _, evs) :=
    TeamsClient_Send (CreateTeamsClient (endpoint response))
      "https://contoso.webhook.office.com/webhookb2/a1b2"
      (card_with "Build" "passed" EmptyString None) ∅ in
  err = None
  /\ In ("Error closiing response body: %v",
         [arg_error (lib_error "net/http" "broken pipe")]) (omap log_of evs).
Proof.
  intros response. unfold TeamsClient_Send.
  pose proof (Send_close_failure_logged
                (implementation (CreateTeamsClient (endpoint response)))
                "https://contoso.webhook.office.com/webhookb2/a1b2"
                {| w_message := card_with "Build" "passed" EmptyString None;
                   w_heap := ∅ |}) as Hclose.
  destruct (run _ _ _) as [[err w] evs] eqn:Hrun.
  vm_compute in Hrun. injection Hrun as <- <- <-.
  destruct (Hclose response (Some (lib_error "net/http" "broken pipe")))
    as [Herr Hlog]; [vm_compute; left; reflexivity|].
  split; [exact Herr | exact Hlog].
Defined.

Lemma Send_nil_iff_accepted_witness :
  let '(err, _, evs) :=
    TeamsClient_Send (CreateTeamsClient (endpoint (response_of 200 "200 OK" "1")))
      "https://contoso.webhook.office.com/webhookb2/a1b2"
      (card_with "Build" "passed" EmptyString None) ∅ in
  err = None.
Proof.
  unfold TeamsClient_Send.
  pose proof (Send_nil_iff_accepted
                (implementation
                   (CreateTeamsClient (endpoint (response_of 200 "200 OK" "1"))))
                "https://contoso.webhook.office.com/webhookb2/a1b2"
                {| w_message := card_with "Build" "passed" EmptyString None;
                   w_heap := ∅ |}) as Hnil.
  destruct (run _ _ _) as [[err w] evs] eqn:Hrun.
  assert (responses evs = [response_of 200 "200 OK" "1"]) as Hone.
  { vm_compute in Hrun. injection Hrun as _ _ <-. reflexivity. }
  apply Hnil. exists (response_of 200 "200 OK" "1").
  split; [exact Hone|]. split; [reflexivity|]. split; reflexivity.
Defined.


(* ===================================================================== *)
(** * The bytes of the payload *)
(* ===================================================================== *)

Lemma string_forallb_app (f : ascii -> bool) (a b : string) :
  string_forallb f (a +:+ b) = string_forallb f a && string_forallb f b.
Proof.
  induction a as [|c a IH]; [reflexivity|]. simpl. rewrite IH. apply andb_assoc.
Qed.

Lemma json_htmlSafeSet_safe (c : ascii) :
  json_htmlSafeSet (byte_val c) = true -> html_safe_byte c = true.
Proof.
  unfold json_htmlSafeSet, html_safe_byte. cbv zeta. intros H.
  apply andb_true_iff in H as [H1 H2]. apply andb_true_iff in H1 as [H1 _].
  rewrite H1. apply negb_true_iff in H2. apply orb_false_iff in H2 as [H2 _].
  apply orb_false_iff in H2 as [H2 H3]. apply orb_false_iff in H2 as [H2 H4].
  apply orb_false_iff in H2 as [_ H2]. rewrite H2, H4, H3. reflexivity.
Qed.

Lemma json_escape_byte_safe (c : ascii) :
  string_forallb html_safe_byte (json_escape_byte c) = true.
Proof. destruct c as [[] [] [] [] [] [] [] []]; vm_compute; reflexivity. Qed.

Lemma utf8_first_high (b : Z) :
  0x80 <= b -> In (utf8_first b) [utf8_xx; 0x02; 0x13; 0x03; 0x23; 0x34; 0x04; 0x44].
Proof.
  intros Hb. unfold utf8_first.
  destruct (b <? 0x80) eqn:H0; [apply Z.ltb_lt in H0; lia|].
  repeat match goal with
         | |- context [if ?x then _ else _] => destruct x
         end; simpl; tauto.
Qed.

Lemma utf8_DecodeRuneInString_high (c : ascii) (t : string) :
  0x80 <= byte_val c ->
  string_forallb high_byte
    (slice_to (snd (utf8_DecodeRuneInString (String c t))) (String c t)) = true.
Proof.
  intros Hc.
  assert (high_byte c = true) as Hc' by (apply Z.leb_le; exact Hc).
  unfold utf8_DecodeRuneInString.
  cbn [String.length Nat.ltb Nat.leb]. cbv zeta.
  change (byte_at (String c t) 0) with (byte_val c).
  pose proof (utf8_first_high _ Hc) as Hfirst.
  assert (forall r : Z, string_forallb high_byte (slice_to (snd (r, 1%nat)) (String c t)) = true)
    as Hone by (intros; simpl; now rewrite Hc').
  cbn [In] in Hfirst.
  destruct Hfirst as [<-|[<-|[<-|[<-|[<-|[<-|[<-|[<-|[]]]]]]]]];
    cbv [utf8_as utf8_xx utf8_acceptRanges utf8_locb utf8_hicb];
    cbn [Z.leb Z.compare Pos.compare Pos.compare_cont Z.land Pos.land Z.of_N
         Z.to_nat Pos.to_nat Pos.iter_op Nat.add Z.shiftr Z.shiftl Z.eqb Pos.eqb
         fst Nat.ltb Nat.leb Z.shiftr Z.shiftl Z.opp Pos.div2 Pos.iter Z.div2 Z.pred_double Z.succ_double Z.pos_sub Pos.pred_double];
    try apply Hone.
  all: destruct t as [|c1 [|c2 [|c3 t3]]];
    cbn [String.length Nat.ltb Nat.leb byte_at String.get]; try apply Hone.
  all: repeat match goal with
         | |- context [if ?x then _ else _] => destruct x eqn:?
         end; try apply Hone; cbn [snd slice_to string_forallb]; rewrite Hc'.
  all: repeat match goal with
         | H : (_ || _) = false |- _ => apply orb_false_iff in H as [? ?]
         | H : (_ <? _) = false |- _ => apply Z.ltb_ge in H
         end.
  all: unfold high_byte; rewrite ?andb_true_iff; repeat split; try apply Z.leb_le;
    simpl in *; try lia.
Qed.

Lemma high_byte_html_safe (s : string) :
  string_forallb high_byte s = true -> string_forallb html_safe_byte s = true.
Proof.
  induction s as [|c s IH]; [reflexivity|]. simpl. intros H.
  apply andb_true_iff in H as [Hc Hs]. rewrite (IH Hs), andb_true_r.
  unfold html_safe_byte, high_byte in *. cbv zeta. apply Z.leb_le in Hc.
  apply andb_true_iff. split; [apply Z.leb_le; lia|].
  apply negb_true_iff. repeat (apply orb_false_iff; split); apply Z.eqb_neq; lia.
Qed.

Lemma json_string_body_html_safe (fuel : nat) (s : string) :
  string_forallb html_safe_byte (json_string_body fuel s) = true.
Proof.
  revert s. induction fuel as [|fuel IH]; intros s; [reflexivity|].
  destruct s as [|c t]; [reflexivity|]. cbn [json_string_body].
  destruct (byte_val c <? utf8_RuneSelf) eqn:Hself.
  - destruct (json_htmlSafeSet (byte_val c)) eqn:Hsafe.
    + cbn [string_forallb]. now rewrite (json_htmlSafeSet_safe _ Hsafe), IH.
    + now rewrite string_forallb_app, json_escape_byte_safe, IH.
  - apply Z.ltb_ge in Hself. unfold utf8_RuneSelf in Hself.
    pose proof (utf8_DecodeRuneInString_high c t Hself) as Hhigh.
    destruct (utf8_DecodeRuneInString (String c t)) as [r size]. cbn [snd] in Hhigh.
    destruct ((r =? utf8_RuneError) && (size =? 1)%nat).
    { rewrite string_forallb_app, IH. reflexivity. }
    destruct ((r =? 0x2028) || (r =? 0x2029)) eqn:Hsep.
    { rewrite !string_forallb_app, IH, andb_true_r.
      apply orb_true_iff in Hsep as [Hr|Hr]; apply Z.eqb_eq in Hr; subst r;
        reflexivity. }
    now rewrite string_forallb_app, IH, (high_byte_html_safe _ Hhigh).
Qed.

Lemma json_string_html_safe (s : string) :
  string_forallb html_safe_byte (json_string s) = true.
Proof.
  unfold json_string. rewrite string_forallb_app. cbn [string_forallb].
  now rewrite json_string_body_html_safe.
Qed.

Lemma json_struct_fields_html_safe (fs : list json_field) (next : ascii) :
  Forall (fun f => string_forallb html_safe_byte (f_name f) = true) fs ->
  html_safe_byte next = true ->
  string_forallb html_safe_byte (fst (json_struct_fields next fs)) = true.
Proof.
  intros Hnames. revert next. induction Hnames as [|f fs Hf Hfs IH]; intros next Hnext.
  - reflexivity.
  - cbn [json_struct_fields].
    destruct (f_omitEmpty f && bool_decide (f_value f = EmptyString)).
    + now apply IH.
    + specialize (IH ","%char eq_refl).
      destruct (json_struct_fields ","%char fs) as [out next']. cbn [fst] in IH |- *.
      unfold json_nameEscHTML. cbn [string_forallb String.append].
      rewrite Hnext, !string_forallb_app, Hf, json_string_html_safe, IH. reflexivity.
Qed.

(** X15. Whatever the fields of the card hold, every byte of the payload
    [Prepare] stores has the value [0x20] or more and is none of [<], [>]
    and [&]: the payload has no line break, tab or other byte below
    [0x20], so it is one line.  [DEL] ([0x7f]) is not excluded. *)
Theorem Prepare_payload_html_safe (card : MessageCard) (h : heap) :
  let '(card', h', _) := Prepare card h in
  exists bytes,
    payload_bytes card' h' = Some bytes
    /\ string_forallb html_safe_byte bytes = true.
Proof.
  pose proof (payload_bytes_Prepare card h) as Hbytes.
  destruct (Prepare card h) as [[card' h'] err]. cbn [fst snd] in Hbytes.
  eexists. split; [exact Hbytes|].
  unfold json_Marshal, json_struct. cbn [fst].
  pose proof (json_struct_fields_html_safe (MessageCard_json_fields card) "{"%char) as Hsafe.
  destruct (json_struct_fields "{"%char (MessageCard_json_fields card)) as [out next].
  cbn [fst] in Hsafe.
  assert (string_forallb html_safe_byte out = true) as Hout.
  { apply Hsafe; [|reflexivity]. repeat constructor. }
  destruct (bool_decide (next = "{"%char)); now rewrite string_forallb_app, Hout.
Qed.

(* ===================================================================== *)
(** * Control characters in the webhook URL *)
(* ===================================================================== *)

Lemma strings_Cut_cons_ne (c d : ascii) (s : string) :
  c <> d ->
  fst (fst (strings_Cut (String c s) (str1 d)))
  = String c (fst (fst (strings_Cut s (str1 d)))).
Proof.
  intros Hne. unfold strings_Cut. rewrite strings_Index_cons_ne by exact Hne.
  destruct (strings_Index s (str1 d)); reflexivity.
Qed.

Lemma strings_Contains_cons (c d : ascii) (s : string) :
  strings_Contains (String c s) (str1 d) = false ->
  c <> d /\ strings_Contains s (str1 d) = false.
Proof.
  unfold strings_Contains. intros H. apply bool_decide_eq_false in H.
  assert (c <> d) as Hne.
  { intros ->. apply H. cbn [strings_Index strings_HasPrefix str1].
    rewrite bool_decide_eq_true_2 by reflexivity. destruct s; now eexists. }
  split; [exact Hne|]. apply bool_decide_eq_false. intros [i Hi]. apply H.
  rewrite strings_Index_cons_ne by exact Hne. rewrite Hi. now eexists.
Qed.

Lemma url_stringContainsCTLByte_app (before after : string) (c : ascii) :
  control_byte c = true ->
  url_stringContainsCTLByte (before +:+ String c after) = true.
Proof.
  intros Hc. unfold url_stringContainsCTLByte. apply negb_true_iff.
  induction before as [|d before IH]; cbn [String.append string_forallb].
  - unfold control_byte in Hc. now rewrite Hc.
  - rewrite IH. apply andb_false_r.
Qed.

(** X16. A webhook URL with an ASCII control character (a line break, a
    tab, ...) before any [#] is rejected as one that could not be parsed,
    whatever the rest of it looks like; the pattern is not consulted. *)
Theorem ValidateWebhook_control_character (client : TeamsClient)
    (before after : string) (c : ascii) :
  control_byte c = true ->
  strings_Contains before "#" = false ->
  exists e,
    is_url_error e
    /\ ValidateWebhook client (before +:+ String c after)
       = Some (fmt_Errorf "could not parse webhook URL %q: %w"
                 [arg_string (before +:+ String c after); arg_error e]).
Proof.
  intros Hc Hbefore.
  exists (url_error "net/url: invalid control character in URL").
  split; [now eexists|]. apply ValidateWebhook_unparsed.
  assert (exists after',
            fst (fst (strings_Cut (before +:+ String c after) "#"))
            = before +:+ String c after') as [after' Hcut].
  { change "#" with (str1 "#"%char) in *.
    induction before as [|d before IH]; cbn [String.append].
    - rewrite strings_Cut_cons_ne; [now eexists|].
      intros ->. vm_compute in Hc. discriminate.
    - apply strings_Contains_cons in Hbefore as [Hne Hbefore].
      rewrite strings_Cut_cons_ne by exact Hne.
      destruct (IH Hbefore) as [after' ->]. now eexists. }
  unfold url_Parse.
  destruct (strings_Cut (before +:+ String c after) "#") as [[u frag] found].
  cbn [fst] in Hcut. subst u. unfold url_parse.
  rewrite (url_stringContainsCTLByte_app _ _ _ Hc). reflexivity.
Qed.

Lemma ValidateWebhook_control_character_witness :
  exists e,
    ValidateWebhook (CreateTeamsClient (endpoint (response_of 200 "200 OK" "1")))
      ("https://contoso.webhook.office.com/webhookb2/a1b2" +:+ String ch_nl "c3")
    = Some (fmt_Errorf "could not parse webhook URL %q: %w"
              [arg_string ("https://contoso.webhook.office.com/webhookb2/a1b2"
                           +:+ String ch_nl "c3");
               arg_error e]).
Proof.
  destruct (ValidateWebhook_control_character
              (CreateTeamsClient (endpoint (response_of 200 "200 OK" "1")))
              "https://contoso.webhook.office.com/webhookb2/a1b2" "c3" ch_nl)
    as (e & _ & Hurl); [reflexivity | vm_compute; reflexivity |].
  exists e. exact Hurl.
Defined.
